(** * NIF import: bone correction and keyframe retargeting

    A shallow embedding of the skeleton and animation import code of
    [io_scene_nif]:

    - [modules/animation/animation_import.py]:
      [AnimationHelper.get_frames_per_second], the frame computation
      [1 + int(time * fps + 0.5)] and the per-bone part of
      [ArmatureAnimation.import_armature_animation];
    - [modules/armature/armature_import.py]:
      [Armature.find_correction_matrix], [Armature.import_bone],
      [Armature.complete_bone_tree], [Armature.is_bone] and
      [Armature.decompose_srt].

    Numbers.  Python floats are idealised as exact rationals ([Q]); [int]
    on a float is truncation toward zero.  Equality of computed rationals
    is [Qeq] ([==]), lifted component-wise to vectors, quaternions and
    matrices.

    The host.  Calls into [mathutils] follow its documented interface:
    [Vector] takes one sequence, so a call with three numbers raises
    [TypeError]; [Matrix.resize_4x4] works in place and returns [None];
    [Matrix.invert] raises [ValueError] on a matrix without inverse.
    Values of finite floats only are modelled. *)

From Stdlib Require Import ZArith QArith Qabs Qround Lia Lqa List Bool.
From stdpp Require Import base option list strings gmap.

Open Scope Q_scope.

(** ** Python numerics *)

Module Py.

(** [int(x)] on a float: truncation toward zero. *)
Definition int (x : Q) : Z := Z.quot (Qnum x) (Zpos (Qden x)).

(** [a < b] on floats. *)
Definition ltb (a b : Q) : bool := negb (Qle_bool b a).

(** [a >= b] on floats. *)
Definition geb (a b : Q) : bool := Qle_bool b a.

(** [sum(xs)]: a left fold that starts at [0]. *)
Definition sum (xs : list Q) : Q := fold_left Qplus xs 0.

(** [max(xs)] on a list with first element [x]. *)
Definition max (x : Z) (xs : list Z) : Z := fold_left Z.max xs x.

(** [xs.index(x)]: the first position holding [x]; [None] is Python's
    [ValueError]. *)
Fixpoint index (x : Z) (xs : list Z) : option nat :=
  match xs with
  | [] => None
  | y :: ys => if Z.eqb y x then Some 0%nat else S <$> index x ys
  end.

(** Exceptions the modelled code can raise. *)
Inductive exn : Type :=
  | TypeError
  | ValueError
  | IndexError
  | ZeroDivisionError
  | KeyError
  | AssertionError
  | AttributeError.

(** Result of a call that may raise. *)
Inductive result (A : Type) : Type :=
  | Ok (a : A)
  | Raise (e : exn).
Arguments Ok {A} a.
Arguments Raise {A} e.

Definition bind {A B} (r : result A) (k : A -> result B) : result B :=
  match r with
  | Ok a => k a
  | Raise e => Raise e
  end.

End Py.

Notation "x <- r ;;; k" := (Py.bind r (fun x => k))
  (at level 100, r at next level, right associativity, only parsing).

(** [a / b] on floats: division by zero raises. *)
Definition py_div (a b : Q) : Py.result Q :=
  if Qeq_bool b 0 then Py.Raise Py.ZeroDivisionError else Py.Ok (a / b).

(** ** The host's [mathutils] values

    Vectors, quaternions and matrices with the operations the import code
    applies to them.  [Matrix * Vector] treats the vector as a column,
    [Quaternion.cross] is the Hamilton product, [Quaternion()] is
    [(1, 0, 0, 0)]. *)

Module Mathutils.

Record Vector : Type := Vec { vx : Q; vy : Q; vz : Q }.

Record Quaternion : Type := Quat { qw : Q; qx : Q; qy : Q; qz : Q }.

(** A 3x3 matrix, by rows. *)
Record Matrix : Type := Mat { row0 : Vector; row1 : Vector; row2 : Vector }.

(** A row of a 4x4 matrix. *)
Record Row4 : Type := R4 { c0 : Q; c1 : Q; c2 : Q; c3 : Q }.

(** A 4x4 transform, by rows; the translation is the last column. *)
Record Matrix44 : Type := Mat44 { m0 : Row4; m1 : Row4; m2 : Row4; m3 : Row4 }.

Definition vec_eq (u v : Vector) : Prop :=
  vx u == vx v /\ vy u == vy v /\ vz u == vz v.

Definition quat_eq (p q : Quaternion) : Prop :=
  qw p == qw q /\ qx p == qx q /\ qy p == qy q /\ qz p == qz q.

Definition mat_eq (a b : Matrix) : Prop :=
  vec_eq (row0 a) (row0 b) /\ vec_eq (row1 a) (row1 b) /\ vec_eq (row2 a) (row2 b).

Definition vec_add (u v : Vector) : Vector :=
  Vec (vx u + vx v) (vy u + vy v) (vz u + vz v).

Definition vec_sub (u v : Vector) : Vector :=
  Vec (vx u - vx v) (vy u - vy v) (vz u - vz v).

Definition dot (u v : Vector) : Q := vx u * vx v + vy u * vy v + vz u * vz v.

(** [Matrix * float]. *)
Definition mat_scale (a : Matrix) (s : Q) : Matrix :=
  let f r := Vec (vx r * s) (vy r * s) (vz r * s) in
  Mat (f (row0 a)) (f (row1 a)) (f (row2 a)).

(** [Matrix * Vector]. *)
Definition mat_vec (a : Matrix) (v : Vector) : Vector :=
  Vec (dot (row0 a) v) (dot (row1 a) v) (dot (row2 a) v).

Definition col0 (b : Matrix) : Vector := Vec (vx (row0 b)) (vx (row1 b)) (vx (row2 b)).
Definition col1 (b : Matrix) : Vector := Vec (vy (row0 b)) (vy (row1 b)) (vy (row2 b)).
Definition col2 (b : Matrix) : Vector := Vec (vz (row0 b)) (vz (row1 b)) (vz (row2 b)).

(** [Matrix * Matrix]. *)
Definition mat_mul (a b : Matrix) : Matrix :=
  let f r := Vec (dot r (col0 b)) (dot r (col1 b)) (dot r (col2 b)) in
  Mat (f (row0 a)) (f (row1 a)) (f (row2 a)).

(** [Matrix.determinant()]. *)
Definition determinant (a : Matrix) : Q :=
  let '(Vec a00 a01 a02) := row0 a in
  let '(Vec a10 a11 a12) := row1 a in
  let '(Vec a20 a21 a22) := row2 a in
  a00 * (a11 * a22 - a12 * a21)
  - a01 * (a10 * a22 - a12 * a20)
  + a02 * (a10 * a21 - a11 * a20).

(** [p.cross(q)]: the quaternion product [p * q]. *)
Definition cross (p q : Quaternion) : Quaternion :=
  Quat (qw p * qw q - qx p * qx q - qy p * qy q - qz p * qz q)
       (qw p * qx q + qx p * qw q + qy p * qz q - qz p * qy q)
       (qw p * qy q - qx p * qz q + qy p * qw q + qz p * qx q)
       (qw p * qz q + qx p * qy q - qy p * qx q + qz p * qw q).

(** [Quaternion()]. *)
Definition quat_identity : Quaternion := Quat 1 0 0 0.

(** [q.to_matrix()]. *)
Definition to_matrix (q : Quaternion) : Matrix :=
  let '(Quat w x y z) := q in
  Mat (Vec (1 - 2 * (y * y) - 2 * (z * z)) (2 * (x * y) - 2 * (w * z)) (2 * (x * z) + 2 * (w * y)))
      (Vec (2 * (x * y) + 2 * (w * z)) (1 - 2 * (x * x) - 2 * (z * z)) (2 * (y * z) - 2 * (w * x)))
      (Vec (2 * (x * z) - 2 * (w * y)) (2 * (y * z) + 2 * (w * x)) (1 - 2 * (x * x) - 2 * (y * y))).

Definition identity33 : Matrix := Mat (Vec 1 0 0) (Vec 0 1 0) (Vec 0 0 1).

(** [Matrix.to_3x3()] of a 4x4 matrix. *)
Definition to_3x3 (m : Matrix44) : Matrix :=
  let f r := Vec (c0 r) (c1 r) (c2 r) in
  Mat (f (m0 m)) (f (m1 m)) (f (m2 m)).

End Mathutils.

Import Mathutils.

(** ** Frame rate and frame numbers ([animation_import.py]) *)

Module Animation.

(** A key of a NIF key array. *)
Record Key (A : Type) : Type := MkKey { time : Q; value : A }.
Arguments MkKey {A} time value.
Arguments time {A} k.
Arguments value {A} k.

(** [NiKeyframeData] (and [NiTransformData]). *)
Record NiKeyframeData : Type := MkKeyframeData {
  translations : list (Key Vector);
  scales : list (Key Q);
  rotation_type : Z;
  xyz_rotations_0 : list (Key Q);
  xyz_rotations_1 : list (Key Q);
  xyz_rotations_2 : list (Key Q);
  quaternion_keys : list (Key Quaternion)
}.

(** [NiBSplineInterpolator]: [basis_data] carries [num_control_points]. *)
Record NiBSplineInterpolator : Type := MkBSpline {
  basis_data : option Z;
  start_time : Q;
  stop_time : Q
}.

(** The blocks [get_frames_per_second] looks for; [NiUVData] holds the
    key times of its [uv_groups]. *)
Inductive Block : Type :=
  | KeyframeDataBlock (kfd : NiKeyframeData)
  | BSplineBlock (kfi : NiBSplineInterpolator)
  | UVDataBlock (uv_groups : list (list Q))
  | OtherBlock.

(** [1 + int(time * fps + 0.5)]: "time 0.0 is frame 1". *)
Definition frame_of_time (fps time : Q) : Z :=
  (1 + Py.int (time * fps + (1#2)))%Z.

Definition times {A} (keys : list (Key A)) : list Q := map time keys.

(** [range(n)] as floats. *)
Definition range (n : Z) : list Q := map (fun i => inject_Z (Z.of_nat i)) (seq 0 (Z.to_nat n)).

(** The key times one root contributes; [tree] is [root.tree()]. *)
Definition key_times_of_root (tree : list Block) : list Q :=
  flat_map (fun b => match b with
     | KeyframeDataBlock kfd =>
         times (translations kfd) ++ times (scales kfd) ++ times (quaternion_keys kfd)
         ++ times (xyz_rotations_0 kfd) ++ times (xyz_rotations_1 kfd)
         ++ times (xyz_rotations_2 kfd)
     | _ => [] end) tree
  ++ flat_map (fun b => match b with
     | BSplineBlock kfi =>
         match basis_data kfi with
         | None => []
         | Some num_control_points =>
             map (fun point => point * (stop_time kfi - start_time kfi)
                               / inject_Z (num_control_points - 2))
                 (range (num_control_points - 2))
         end
     | _ => [] end) tree
  ++ flat_map (fun b => match b with
     | UVDataBlock uv_groups => concat uv_groups
     | _ => [] end) tree.

(** [sum(abs(int(time * fps + 0.5) - (time * fps)) for time in key_times)]. *)
Definition key_diff (fps : Z) (time : Q) : Q :=
  Qabs (inject_Z (Py.int (time * inject_Z fps + (1#2))) - time * inject_Z fps).

Definition rounding_diff (fps : Z) (key_times : list Q) : Q :=
  Py.sum (map (key_diff fps) key_times).

(** One turn of [for test_fps in [20, 25, 35]]. *)
Definition try_fps (key_times : list Q) (best : Z * Q) (test_fps : Z) : Z * Q :=
  let '(fps, lowest_diff) := best in
  let diff := rounding_diff test_fps key_times in
  if Py.ltb diff lowest_diff then (test_fps, diff) else (fps, lowest_diff).

(** The second half of [get_frames_per_second], from the collected
    [key_times] on. *)
Definition fps_of_key_times (key_times : list Q) : Z :=
  match key_times with
  | [] => 30
  | _ =>
      let fps := 30%Z in
      let lowest_diff := rounding_diff fps key_times in
      fst (fold_left (try_fps key_times) [20; 25; 35]%Z (fps, lowest_diff))
  end.

(** The first half: [key_times] after the scan of all roots. *)
Definition key_times (roots : list (list Block)) : list Q :=
  flat_map key_times_of_root roots.

Definition get_frames_per_second (roots : list (list Block)) : Z :=
  fps_of_key_times (key_times roots).

End Animation.

(** ** Keyframe retargeting ([ArmatureAnimation.import_armature_animation])

    The body of the loop over pose bones, for one bone. *)

Module ArmatureAnimation.

Import Animation.

(** What the code derives from the bone's bind matrix and from its entry
    of [dict_bones_extra_matrix] before it reads any key. *)
Record BoneBind : Type := MkBoneBind {
  niBone_bind_scale : Q;
  niBone_bind_rot_inv : Matrix;
  niBone_bind_quat_inv : Quaternion;
  niBone_bind_trans : Vector;
  extra_matrix_scale : Q;
  extra_matrix_rot_inv : Matrix;
  extra_matrix_quat : Quaternion;
  extra_matrix_quat_inv : Quaternion;
  extra_matrix_trans : Vector
}.

(** The three frame rates the code reads: [animation.fps],
    [animation.FPS] and [armature.fps]. *)
Record FrameRates : Type := MkFrameRates {
  animation_fps : Q;
  animation_FPS : Q;
  armature_fps : Q
}.

(** The animated properties of a pose bone. *)
Record PoseBone : Type := MkPoseBone {
  scale : Vector;
  rotation_quaternion : Quaternion;
  rotation_euler : Vector;
  location : Vector
}.

(** [b_posebone.keyframe_insert(data_path, frame)]: the host keys the
    bone's property [data_path] as it is at the call. *)
Record Keyframe : Type := Insert {
  data_path : string;
  frame : Z;
  bone : PoseBone
}.

(** An F-curve of the host's action. *)
Record FCurve : Type := MkFCurve {
  fc_data_path : string;
  array_index : Z;
  evaluate : Z -> Q
}.

(** The host: the channels of the bone's action group after the given
    keyframes were inserted, and [Euler.to_quaternion]. *)
Record Host : Type := MkHost {
  channels : list Keyframe -> list FCurve;
  to_quaternion : Vector -> Quaternion
}.

(** State of the import of one bone. *)
Record State : Type := MkState {
  posebone : PoseBone;
  action : list Keyframe;
  rot_keys_dict : gmap Z Quaternion;
  scale_keys_dict : gmap Z Q
}.

Definition set_rotation_quaternion (q : Quaternion) (b : PoseBone) : PoseBone :=
  MkPoseBone (scale b) q (rotation_euler b) (location b).

Definition set_location (v : Vector) (b : PoseBone) : PoseBone :=
  MkPoseBone (scale b) (rotation_quaternion b) (rotation_euler b) v.

Definition keyframe_insert (path : string) (frame : Z) (st : State) : State :=
  MkState (posebone st) (action st ++ [Insert path frame (posebone st)])
          (rot_keys_dict st) (scale_keys_dict st).

Definition with_posebone (f : PoseBone -> PoseBone) (st : State) : State :=
  MkState (f (posebone st)) (action st) (rot_keys_dict st) (scale_keys_dict st).

Definition store_rot (frame : Z) (q : Quaternion) (st : State) : State :=
  MkState (posebone st) (action st) (<[frame := q]> (rot_keys_dict st))
          (scale_keys_dict st).

(** A [for] loop whose body may raise. *)
Definition for_each {A S} (xs : list A) (body : A -> S -> Py.result S) (st : S)
  : Py.result S :=
  fold_left (fun r x => Py.bind r (body x)) xs (Py.Ok st).

(** [zip] of three lists. *)
Fixpoint zip3 {A B C} (xs : list A) (ys : list B) (zs : list C) : list (A * B * C) :=
  match xs, ys, zs with
  | x :: xs', y :: ys', z :: zs' => (x, y, z) :: zip3 xs' ys' zs'
  | _, _, _ => []
  end.

(** [needle in hay] on strings. *)
Fixpoint contains (needle hay : string) : bool :=
  String.prefix needle hay ||
  match hay with
  | EmptyString => false
  | String _ rest => contains needle rest
  end.


(** The three data sources of a bone's controller: a B-spline
    interpolator (with the lists its [get_times], [get_translations] and
    [get_rotations] yield), keyframe data, or neither. *)
Inductive Controller : Type :=
  | BSplineInterpolator (times : list Q) (translations : list Vector)
                        (rotations : list Quaternion)
  | KeyframeData (kfd : NiKeyframeData)
  | NoData.

(** A dictionary is true when it is not empty. *)
Definition truthy {A} (d : gmap Z A) : bool :=
  negb (bool_decide (map_to_list d = [])).

Definition set_quat_component (i : Z) (v : Q) (q : Quaternion) : Quaternion :=
  let q := if (i =? 0)%Z then Quat v (qx q) (qy q) (qz q) else q in
  let q := if (i =? 1)%Z then Quat (qw q) v (qy q) (qz q) else q in
  let q := if (i =? 2)%Z then Quat (qw q) (qx q) v (qz q) else q in
  if (i =? 3)%Z then Quat (qw q) (qx q) (qy q) v else q.

Definition set_euler_component (i : Z) (v : Q) (e : Vector) : Vector :=
  let e := if (i =? 0)%Z then Vec v (vy e) (vz e) else e in
  let e := if (i =? 1)%Z then Vec (vx e) v (vz e) else e in
  if (i =? 2)%Z then Vec (vx e) (vy e) v else e.

Definition diagonal (s : Q) : Matrix := Mat (Vec s 0 0) (Vec 0 s 0) (Vec 0 0 s).

Section Bone.

Variable host : Host.
Variable fps : FrameRates.
Variable b : BoneBind.

(** Rotation of a B-spline sample (lines 579-581). *)
Definition bspline_rotation (quat : Quaternion) : Quaternion :=
  let quatVal := cross (niBone_bind_quat_inv b) quat in
  let rot := cross (extra_matrix_quat_inv b) quatVal in
  cross rot (extra_matrix_quat b).

(** Rotation of a quaternion key (lines 717-719). *)
Definition quaternion_rotation (quat : Quaternion) : Quaternion :=
  let quatVal := cross (niBone_bind_quat_inv b) quat in
  let rot := cross (extra_matrix_quat_inv b) quatVal in
  cross rot (extra_matrix_quat b).

(** The "slow method" for the rotation at [frame]. *)
Definition slow_rotation (fcurves : list FCurve) (frame : Z) : Matrix :=
  let '(quat, euler) :=
    fold_left (fun '(quat, euler) fc =>
        if contains "rotation_quaternion" (fc_data_path fc) then
          (set_quat_component (array_index fc) (evaluate fc frame) quat, euler)
        else if contains "rotation_euler" (fc_data_path fc) then
          (quat, Some (set_euler_component (array_index fc) (evaluate fc frame)
                                           (Vec 0 0 0)))
        else (quat, euler))
      fcurves (quat_identity, None) in
  let quat := match euler with
              | Some e => to_quaternion host e
              | None => quat
              end in
  to_matrix quat.

(** The scale at [frame] read back from the F-curves. *)
Definition slow_scale (fcurves : list FCurve) (frame : Z) : Q :=
  fold_left (fun sizeVal fc =>
      if String.eqb (fc_data_path fc) "scale" then evaluate fc frame else sizeVal)
    fcurves 1.

(** The rotation matrix the translation at [frame] is corrected with. *)
Definition rotation_at (st : State) (frame : Z) : Matrix :=
  if truthy (rot_keys_dict st) then
    match rot_keys_dict st !! frame with
    | Some q => to_matrix q
    | None => slow_rotation (channels host (action st)) frame
    end
  else identity33.

(** The scale the translation at [frame] is corrected with. *)
Definition scale_at (st : State) (frame : Z) : Q :=
  if truthy (scale_keys_dict st) then
    match scale_keys_dict st !! frame with
    | Some s => s
    | None => slow_scale (channels host (action st)) frame
    end
  else 1.

(** The "final calculation" of a location (lines 786-787). *)
Definition final_location (rot : Matrix) (sizeVal : Q) (locVal : Vector)
  : Py.result Vector :=
  inv_scale <- py_div 1 (extra_matrix_scale b) ;;;
  Py.Ok (mat_vec (mat_scale (extra_matrix_rot_inv b) inv_scale)
           (vec_sub (vec_add (mat_vec (mat_mul rot (diagonal sizeVal))
                                      (extra_matrix_trans b)) locVal)
                    (extra_matrix_trans b))).

(** [Tchannel = (Ttotal - Tbind) * inverse(Rbind) / Sbind]. *)
Definition bind_relative (trans : Vector) : Py.result Vector :=
  inv_scale <- py_div 1 (niBone_bind_scale b) ;;;
  Py.Ok (mat_vec (mat_scale (niBone_bind_rot_inv b) inv_scale)
                 (vec_sub trans (niBone_bind_trans b))).

(** *** Keyframe data *)

(** A scale key (lines 663-672).  After the division the code builds
    the pose scale with [mathutils.Vector(size, size, size)]; the
    constructor takes one sequence and refuses three numbers, so the
    turn ends there. *)
Definition scale_key (scaleKey : Key Q) (st : State) : Py.result State :=
  let frame := frame_of_time (animation_fps fps) (time scaleKey) in
  let sizeVal := value scaleKey in
  size <- py_div sizeVal (niBone_bind_scale b) ;;;
  Py.Raise Py.TypeError.

(** An Euler key (lines 685-703).  The first statement compares the key
    times with [self.properties.epsilon]; [ArmatureAnimation] has no
    attribute [properties], so the turn ends there. *)
Definition euler_key (k : Key Q * Key Q * Key Q) (st : State) : Py.result State :=
  Py.Raise Py.AttributeError.

Definition quaternion_key (key : Key Quaternion) (st : State) : Py.result State :=
  let frame := frame_of_time (armature_fps fps) (time key) in
  let rot := quaternion_rotation (value key) in
  let st := with_posebone (set_rotation_quaternion rot) st in
  let st := keyframe_insert "rotation_quaternion" frame st in
  Py.Ok (store_rot frame rot st).

Definition translation_key (key : Key Vector) (st : State) : Py.result State :=
  let frame := frame_of_time (armature_fps fps) (time key) in
  locVal <- bind_relative (value key) ;;;
  let rot := rotation_at st frame in
  let sizeVal := scale_at st frame in
  loc <- final_location rot sizeVal locVal ;;;
  Py.Ok (keyframe_insert "location" frame (with_posebone (set_location loc) st)).

Definition rotation_keys (kfd : NiKeyframeData) (st : State) : Py.result State :=
  if (rotation_type kfd =? 4)%Z then
    for_each (zip3 (xyz_rotations_0 kfd) (xyz_rotations_1 kfd) (xyz_rotations_2 kfd))
             euler_key st
  else for_each (quaternion_keys kfd) quaternion_key st.

(** The [NiKeyframeData] branch.  [kfd.translations] is a key group
    object, which is true, so both dictionaries are created. *)
Definition import_keyframe_data (kfd : NiKeyframeData) (st : State) : Py.result State :=
  st <- for_each (scales kfd) scale_key st ;;;
  st <- rotation_keys kfd st ;;;
  for_each (translations kfd) translation_key st.

(** *** B-spline data *)

Definition bspline_rotation_sample (store : bool) (k : Q * Quaternion) (st : State)
  : Py.result State :=
  let '(time, quat) := k in
  let frame := frame_of_time (animation_fps fps) time in
  let rot := bspline_rotation quat in
  let st := with_posebone (set_rotation_quaternion rot) st in
  let st := keyframe_insert "rotation_quaternion" frame st in
  Py.Ok (if store then store_rot frame rot st else st).

(** A B-spline translation sample (lines 589-593): the frame, then
    [mathutils.Vector] on the unpacked translation, which hands the
    constructor three numbers. *)
Definition bspline_translation_sample (k : Q * Vector) (st : State) : Py.result State :=
  let '(time, translation) := k in
  let frame := frame_of_time (animation_FPS fps) time in
  Py.Raise Py.TypeError.

Definition import_bspline (times : list Q) (translations : list Vector)
    (rotations : list Quaternion) (st : State) : Py.result State :=
  let has_translations := negb (bool_decide (translations = [])) in
  st <- for_each (zip times rotations) (bspline_rotation_sample has_translations) st ;;;
  for_each (zip times translations) bspline_translation_sample st.

(** The animation of one bone, from a pose bone at rest and an empty
    action group. *)
Definition import_bone_animation (c : Controller) (st : State) : Py.result State :=
  let st := MkState (posebone st) (action st) ∅ ∅ in
  match c with
  | BSplineInterpolator times translations rotations =>
      import_bspline times translations rotations st
  | KeyframeData kfd => import_keyframe_data kfd st
  | NoData => Py.Ok st
  end.

End Bone.

End ArmatureAnimation.

(** ** Skeleton import ([armature_import.py]) *)

Module Armature.

(** A block of the NIF scene graph, by identity. *)
Definition Node : Type := positive.

(** The scene graph as the import reads it: [_parent], [children] and
    [nif_utils.import_matrix(block, relative_to)]. *)
Record Scene : Type := MkScene {
  parent : Node -> option Node;
  children : Node -> list Node;
  import_matrix : Node -> option Node -> Matrix44
}.

(** The options of [NifOp.props] the skeleton import reads. *)
Record Props : Type := MkProps {
  import_realign_bones : Z;
  epsilon : Q;
  scale_correction_import : Q
}.

(** [armature.DICT_ARMATURES]: armature root to its list of bones. *)
Abbreviation Armatures := (gmap Node (list Node)).

(** Correction matrices, in the order +X, +Y, +Z, -X, -Y, -Z. *)
Definition BONE_CORRECTION_MATRICES : list Matrix :=
  [ Mat (Vec 0 (-1) 0) (Vec 1 0 0) (Vec 0 0 1);
    Mat (Vec 1 0 0) (Vec 0 1 0) (Vec 0 0 1);
    Mat (Vec 1 0 0) (Vec 0 0 1) (Vec 0 (-1) 0);
    Mat (Vec 0 1 0) (Vec (-1) 0 0) (Vec 0 0 1);
    Mat (Vec (-1) 0 0) (Vec 0 (-1) 0) (Vec 0 0 1);
    Mat (Vec 1 0 0) (Vec 0 0 (-1)) (Vec 0 1 0) ].

Definition IDENTITY44 : Matrix44 :=
  Mat44 (R4 1 0 0 0) (R4 0 1 0 0) (R4 0 0 1 0) (R4 0 0 0 1).

(** [is_bone]: the block is in the bone list of some armature. *)
Definition is_bone (armatures : Armatures) (ni_block : option Node) : bool :=
  match ni_block with
  | None => false
  | Some n =>
      existsb (fun bones : list Node => bool_decide (n ∈ bones))
              (map_to_list armatures).*2
  end.

(** [complete_bone_tree].  [fuel] bounds the depth of the recursion; the
    outer [None] is a run that needs more.  A missing parent is appended
    like any other and the next call then fails on its [_parent]. *)
Fixpoint complete_bone_tree (sc : Scene) (fuel : nat) (bone skelroot : Node)
    (armatures : Armatures) : option (Py.result Armatures) :=
  match fuel with
  | O => None
  | S fuel' =>
      match armatures !! skelroot with
      | None => Some (Py.Raise Py.AssertionError)
      | Some bones =>
          if negb (bool_decide (bone ∈ bones)) then Some (Py.Raise Py.AssertionError)
          else
            match parent sc bone with
            | None => Some (Py.Raise Py.AttributeError)
            | Some boneparent =>
                if bool_decide (boneparent ≠ skelroot) then
                  let armatures :=
                    if negb (bool_decide (boneparent ∈ bones))
                    then <[skelroot := bones ++ [boneparent]]> armatures
                    else armatures in
                  complete_bone_tree sc fuel' boneparent skelroot armatures
                else Some (Py.Ok armatures)
            end
      end
  end.

(** The choice of [find_correction_matrix] once the sums are known
    (lines 262-275). *)
Definition correction_of_sums (sum_x sum_y sum_z : Q) : Py.result Matrix :=
  let m_correction := to_3x3 IDENTITY44 in
  let list_xyz := map (fun c => Py.int (c * 200))
                      [sum_x; sum_y; sum_z; - sum_x; - sum_y; - sum_z] in
  match list_xyz with
  | [] => Py.Raise Py.ValueError
  | x :: xs =>
      match Py.index (Py.max x xs) list_xyz with
      | None => Py.Raise Py.ValueError
      | Some idx_correction =>
          let alignment_offset :=
            if ((idx_correction =? 0)%nat || (idx_correction =? 3)%nat)
               && Py.ltb 0 (Qabs sum_x)
            then (Qabs sum_y + Qabs sum_z) / Qabs sum_x
            else if ((idx_correction =? 1)%nat || (idx_correction =? 4)%nat)
                    && Py.ltb 0 (Qabs sum_y)
            then (Qabs sum_z + Qabs sum_x) / Qabs sum_y
            else if Py.ltb 0 (Qabs sum_z)
            then (Qabs sum_x + Qabs sum_y) / Qabs sum_z
            else 0 in
          if Py.ltb alignment_offset (1#4) then
            match BONE_CORRECTION_MATRICES !! idx_correction with
            | Some m => Py.Ok m
            | None => Py.Raise Py.IndexError
            end
          else Py.Ok m_correction
      end
  end.

Section Skeleton.

Variable sc : Scene.
Variable props : Props.
Variable armatures : Armatures.
(** [Vector.normalize()] of the host. *)
Variable normalize : Vector -> Vector.
(** Whether the host's [Matrix.invert()] finds an inverse. *)
Variable invertible : Matrix44 -> bool.

Definition child_bones (n : Node) : list Node :=
  filter (fun child => is_bone armatures (Some child) = true) (children sc n).

(** The sums [find_correction_matrix] decides on (lines 252-260). *)
Definition offset_sums (n : Node) (n_armature : Node) : Q * Q * Q :=
  let armature_space_matrix := import_matrix sc n (Some n_armature) in
  let '(R4 sum_x sum_y sum_z dummy) := m3 armature_space_matrix in
  let n_child_bones := child_bones n in
  if (0 <? length n_child_bones)%nat then
    let child_local_matrices := map (fun child => import_matrix sc child None) n_child_bones in
    (Py.sum (map (fun cm => c3 (m0 cm)) child_local_matrices),
     Py.sum (map (fun cm => c3 (m1 cm)) child_local_matrices),
     Py.sum (map (fun cm => c3 (m2 cm)) child_local_matrices))
  else (sum_x, sum_y, sum_z).

Definition find_correction_matrix (n_block : option Node) (n_armature : Node)
  : Py.result Matrix :=
  let m_correction := to_3x3 IDENTITY44 in
  match n_block with
  | Some n =>
      if (import_realign_bones props =? 2)%Z && is_bone armatures n_block then
        let '(sum_x, sum_y, sum_z) := offset_sums n n_armature in
        correction_of_sums sum_x sum_y sum_z
      else Py.Ok m_correction
  | None => Py.Ok m_correction
  end.

(** [abs(dx + dy + dz) * 200 < NifOp.props.epsilon] *)
Definition no_offset (dx dy dz : Q) : bool :=
  Py.ltb (Qabs (dx + dy + dz) * 200) (epsilon props).

(** An edit bone, as far as the import reads it back. *)
Record EditBone : Type := MkEditBone { head : Vector; tail : Vector }.

(** The first half of [import_bone] (lines 154-177): the tail as the
    average of the child bones and whether the bone counts as zero
    length. *)
Definition tail_of_children (n_block n_armature : Node) : Py.result (Vector * bool) :=
  let n_child_bones := child_bones n_block in
  let armature_space_matrix := import_matrix sc n_block (Some n_armature) in
  let b_bone_head_x := c3 (m0 armature_space_matrix) in
  let b_bone_head_y := c3 (m1 armature_space_matrix) in
  let b_bone_head_z := c3 (m2 armature_space_matrix) in
  if (0 <? length n_child_bones)%nat then
    m_correction <- find_correction_matrix (Some n_block) n_armature ;;;
    let child_matrices :=
      map (fun child => import_matrix sc child (Some n_armature)) n_child_bones in
    let len := inject_Z (Z.of_nat (length child_matrices)) in
    let b_bone_tail_x := Py.sum (map (fun cm => c3 (m0 cm)) child_matrices) / len in
    let b_bone_tail_y := Py.sum (map (fun cm => c3 (m1 cm)) child_matrices) / len in
    let b_bone_tail_z := Py.sum (map (fun cm => c3 (m2 cm)) child_matrices) / len in
    let dx := b_bone_head_x - b_bone_tail_x in
    let dy := b_bone_head_y - b_bone_tail_y in
    let dz := b_bone_head_z - b_bone_tail_z in
    Py.Ok (Vec b_bone_tail_x b_bone_tail_y b_bone_tail_z, no_offset dx dy dz)
  else if (import_realign_bones props =? 2)%Z then
    m_correction <- find_correction_matrix (parent sc n_block) n_armature ;;;
    Py.Ok (Vec b_bone_head_x b_bone_head_y b_bone_head_z, true)
  else Py.Ok (Vec b_bone_head_x b_bone_head_y b_bone_head_z, true).

(** The second half (lines 179-204): the tail of a zero-length bone. *)
Definition nub_tail (edit_bones : gmap Node EditBone) (n_block : Node)
    (b_bone_head b_bone_tail : Vector) : Py.result Vector :=
  let nub_length : Q := 5 in
  let scale := scale_correction_import props in
  let '(Vec b_bone_head_x b_bone_head_y b_bone_head_z) := b_bone_head in
  let '(Vec b_bone_tail_x b_bone_tail_y b_bone_tail_z) := b_bone_tail in
  if (import_realign_bones props =? 2)%Z
     || negb (is_bone armatures (parent sc n_block))
  then Py.Ok (Vec (b_bone_head_x + nub_length * scale) b_bone_tail_y b_bone_tail_z)
  else
    match parent sc n_block ≫= (fun p => edit_bones !! p) with
    | None => Py.Raise Py.KeyError
    | Some parent_bone =>
        let parent_tail := tail parent_bone in
        let dx := b_bone_head_x - vx parent_tail in
        let dy := b_bone_head_y - vy parent_tail in
        let dz := b_bone_head_z - vz parent_tail in
        let '(dx, dy, dz) :=
          if no_offset dx dy dz then
            let parent_head := head parent_bone in
            (vx parent_tail - vx parent_head,
             vy parent_tail - vy parent_head,
             vz parent_tail - vz parent_head)
          else (dx, dy, dz) in
        let direction := normalize (Vec dx dy dz) in
        Py.Ok (Vec (b_bone_head_x + vx direction * nub_length * scale)
                   (b_bone_head_y + vy direction * nub_length * scale)
                   (b_bone_head_z + vz direction * nub_length * scale))
    end.

(** Head and tail of the bone [import_bone] creates for [n_block]
    (lines 133-208); [None] when the block is not a bone.  [edit_bones]
    are the bones created so far, by block. *)
Definition bone_head_tail (edit_bones : gmap Node EditBone) (n_block n_armature : Node)
  : Py.result (option EditBone) :=
  if negb (is_bone armatures (Some n_block)) then Py.Ok None
  else
    let armature_space_matrix := import_matrix sc n_block (Some n_armature) in
    let b_bone_head := Vec (c3 (m0 armature_space_matrix))
                           (c3 (m1 armature_space_matrix))
                           (c3 (m2 armature_space_matrix)) in
    r <- tail_of_children n_block n_armature ;;;
    let '(b_bone_tail, is_zero_length) := r in
    b_bone_tail <- (if is_zero_length
                    then nub_tail edit_bones n_block b_bone_head b_bone_tail
                    else Py.Ok b_bone_tail) ;;;
    Py.Ok (Some (MkEditBone b_bone_head b_bone_tail)).

(** [import_bone] (lines 130-246): the bone of [n_block], then those of
    its child bones, in the edit bones of the armature.  Once head and
    tail are set, full realign multiplies what
    [m_correction.resize_4x4()] returns, which is [None], with the
    armature-space matrix (line 216); the other modes go on to invert the
    armature-space matrix (line 226).  [fuel] bounds the depth. *)
Fixpoint import_bone (fuel : nat) (n_block n_armature : Node)
    (edit_bones : gmap Node EditBone) : option (Py.result (gmap Node EditBone)) :=
  match fuel with
  | O => None
  | S fuel' =>
      match bone_head_tail edit_bones n_block n_armature with
      | Py.Raise e => Some (Py.Raise e)
      | Py.Ok None => Some (Py.Ok edit_bones)
      | Py.Ok (Some b_bone) =>
          if (import_realign_bones props =? 2)%Z then Some (Py.Raise Py.TypeError)
          else if negb (invertible (import_matrix sc n_block (Some n_armature)))
          then Some (Py.Raise Py.ValueError)
          else
            fold_left (fun acc niBone =>
                match acc with
                | Some (Py.Ok edit_bones) => import_bone fuel' niBone n_armature edit_bones
                | _ => acc
                end)
              (child_bones n_block) (Some (Py.Ok (<[n_block := b_bone]> edit_bones)))
      end
  end.

End Skeleton.

(** [decompose_srt].  [decompose] is the host's [Matrix.decompose()] and
    [sqrt] its square root of a float that is not negative; a negative
    float to the power [0.5] is a complex number, which [Vector] refuses. *)
Section Decompose.

Variable props : Props.
Variable decompose : Matrix44 -> Vector * Quaternion * Vector.
Variable sqrt : Q -> Q.

Definition pow_half (x : Q) : Py.result Q :=
  if Py.ltb x 0 then Py.Raise Py.TypeError else Py.Ok (sqrt x).

Definition decompose_srt (matrix : Matrix44)
  : Py.result (list string * (Q * Matrix * Vector)) :=
  let '(trans_vec, rot_quat, scale_vec) := decompose matrix in
  let scale_rot := to_matrix rot_quat in
  s0 <- pow_half (vx scale_vec) ;;;
  s1 <- pow_half (vy scale_vec) ;;;
  s2 <- pow_half (vz scale_vec) ;;;
  let b_scale := Vec s0 s1 s2 in
  let b_scale :=
    if Py.ltb (determinant scale_rot) 0
    then Vec (- vx b_scale) (- vy b_scale) (- vz b_scale)
    else b_scale in
  let log :=
    if Py.geb (Qabs (vx scale_vec - vy scale_vec)) (epsilon props)
       || Py.geb (Qabs (vy scale_vec - vz scale_vec)) (epsilon props)
    then ["Corrupt rotation matrix in nif: geometry errors may result."]
    else [] in
  let b_scale := vx b_scale in
  let b_rot := mat_scale scale_rot b_scale in
  let b_trans := trans_vec in
  Py.Ok (log, (b_scale, b_rot, b_trans)).

End Decompose.

End Armature.

(** ** The specification's notions *)

Module Spec.

(** [round]: the nearest integer, a half rounding upward. *)
Definition round_half_up (x : Q) : Z := Qfloor (x + (1#2)).

(** The rounding error of a time at a frame rate. *)
Definition rounding_error (fps : Z) (t : Q) : Q :=
  Qabs (inject_Z (round_half_up (t * inject_Z fps)) - t * inject_Z fps).

(** The time is a whole, non-negative number of [1/n] seconds. *)
Definition aligned (n : Z) (t : Q) : Prop :=
  exists k : Z, (0 <= k)%Z /\ t * inject_Z n == inject_Z k.

(** [Σ|round(t·fps) − t·fps|] over the timestamps. *)
Definition total_rounding_error (fps : Z) (ts : list Q) : Q :=
  Py.sum (map (rounding_error fps) ts).

(** [R_x⁻¹ · (R_bind⁻¹ · R_total) · R_x] on quaternions. *)
Definition conjugated_delta (R_x_inv R_bind_inv R_total R_x : Quaternion) : Quaternion :=
  cross (cross R_x_inv (cross R_bind_inv R_total)) R_x.

(** The identity bind pose with the identity extra matrix. *)
Definition identity_bind : ArmatureAnimation.BoneBind :=
  ArmatureAnimation.MkBoneBind 1 identity33 quat_identity (Vec 0 0 0)
                               1 identity33 quat_identity quat_identity (Vec 0 0 0).

(** A keyframe on a rotation channel. *)
Definition is_rotation (k : ArmatureAnimation.Keyframe) : bool :=
  String.eqb (ArmatureAnimation.data_path k) "rotation_quaternion"
  || String.eqb (ArmatureAnimation.data_path k) "rotation_euler".

Definition is_scale (k : ArmatureAnimation.Keyframe) : bool :=
  String.eqb (ArmatureAnimation.data_path k) "scale".

(** The rotation sample at a frame: the rotation set for the last
    rotation keyframe inserted at that frame. *)
Definition rotation_sample_at (samples : list ArmatureAnimation.Keyframe) (f : Z)
  : option Quaternion :=
  fold_left (fun acc k =>
      if is_rotation k && (ArmatureAnimation.frame k =? f)%Z
      then Some (ArmatureAnimation.rotation_quaternion (ArmatureAnimation.bone k))
      else acc) samples None.

(** The scale sample at a frame, likewise. *)
Definition scale_sample_at (samples : list ArmatureAnimation.Keyframe) (f : Z)
  : option Q :=
  fold_left (fun acc k =>
      if is_scale k && (ArmatureAnimation.frame k =? f)%Z
      then Some (vx (ArmatureAnimation.scale (ArmatureAnimation.bone k)))
      else acc) samples None.

(** The rotation a translation at frame [f] is to use, given the samples
    keyed before it: the sample at [f]; the identity when there is no
    rotation sample at all; else what the host's curves evaluate to. *)
Definition rotation_for (host : ArmatureAnimation.Host)
    (samples : list ArmatureAnimation.Keyframe) (f : Z) (rot : Matrix) : Prop :=
  match rotation_sample_at samples f with
  | Some q => rot = to_matrix q
  | None =>
      (Forall (fun k => is_rotation k = false) samples -> rot = identity33)
      /\ (Exists (fun k => is_rotation k = true) samples ->
          exists keyed, rot = ArmatureAnimation.slow_rotation host
                                (ArmatureAnimation.channels host keyed) f)
  end.

(** The scale a translation at frame [f] is to use, likewise. *)
Definition scale_for (host : ArmatureAnimation.Host)
    (samples : list ArmatureAnimation.Keyframe) (f : Z) (sizeVal : Q) : Prop :=
  match scale_sample_at samples f with
  | Some s => sizeVal = s
  | None =>
      (Forall (fun k => is_scale k = false) samples -> sizeVal = 1)
      /\ (Exists (fun k => is_scale k = true) samples ->
          exists keyed, sizeVal = ArmatureAnimation.slow_scale
                                    (ArmatureAnimation.channels host keyed) f)
  end.

(** [k] is the keyframe of the quaternion key [key]. *)
Definition quaternion_sample (fps : ArmatureAnimation.FrameRates)
    (b : ArmatureAnimation.BoneBind) (key : Animation.Key Quaternion)
    (k : ArmatureAnimation.Keyframe) : Prop :=
  ArmatureAnimation.data_path k = "rotation_quaternion"
  /\ ArmatureAnimation.frame k
     = Animation.frame_of_time (ArmatureAnimation.armature_fps fps) (Animation.time key)
  /\ ArmatureAnimation.rotation_quaternion (ArmatureAnimation.bone k)
     = ArmatureAnimation.quaternion_rotation b (Animation.value key).

(** [s · v]. *)
Definition vec_scale (s : Q) (v : Vector) : Vector :=
  Vec (s * vx v) (s * vy v) (s * vz v).

(** The location of a translation key [t] under the rotation [rot] and
    the scale [sizeVal] of its frame:
    [(1/S_x) · R_x⁻¹ · (rot · (sizeVal · T_x) + T_channel − T_x)] with
    [T_channel = (1/S_bind) · R_bind⁻¹ · (t − T_bind)]. *)
Definition retargeted_location (b : ArmatureAnimation.BoneBind) (rot : Matrix)
    (sizeVal : Q) (t : Vector) : Vector :=
  let t_channel :=
    vec_scale (/ ArmatureAnimation.niBone_bind_scale b)
      (mat_vec (ArmatureAnimation.niBone_bind_rot_inv b)
               (vec_sub t (ArmatureAnimation.niBone_bind_trans b))) in
  vec_scale (/ ArmatureAnimation.extra_matrix_scale b)
    (mat_vec (ArmatureAnimation.extra_matrix_rot_inv b)
       (vec_sub
          (vec_add (mat_vec rot (vec_scale sizeVal (ArmatureAnimation.extra_matrix_trans b)))
                   t_channel)
          (ArmatureAnimation.extra_matrix_trans b))).

(** The rotation the dictionaries of [st] give the frame [f]: the entry
    of the frame; the identity when the dictionary is empty; else what
    the host's curves evaluate to. *)
Definition frame_rotation (host : ArmatureAnimation.Host) (st : ArmatureAnimation.State)
    (f : Z) (rot : Matrix) : Prop :=
  match ArmatureAnimation.rot_keys_dict st !! f with
  | Some q => rot = to_matrix q
  | None =>
      (ArmatureAnimation.rot_keys_dict st = ∅ -> rot = identity33)
      /\ (ArmatureAnimation.rot_keys_dict st <> ∅ ->
          rot = ArmatureAnimation.slow_rotation host
                  (ArmatureAnimation.channels host (ArmatureAnimation.action st)) f)
  end.

(** The scale the dictionaries of [st] give the frame [f], likewise. *)
Definition frame_scale (host : ArmatureAnimation.Host) (st : ArmatureAnimation.State)
    (f : Z) (sizeVal : Q) : Prop :=
  match ArmatureAnimation.scale_keys_dict st !! f with
  | Some s => sizeVal = s
  | None =>
      (ArmatureAnimation.scale_keys_dict st = ∅ -> sizeVal = 1)
      /\ (ArmatureAnimation.scale_keys_dict st <> ∅ ->
          sizeVal = ArmatureAnimation.slow_scale
                      (ArmatureAnimation.channels host (ArmatureAnimation.action st)) f)
  end.

(** [k] is the keyframe of the translation key [key], its location
    computed with the rotation and the scale that [samples] give its
    frame. *)
Definition location_sample (host : ArmatureAnimation.Host)
    (fps : ArmatureAnimation.FrameRates) (b : ArmatureAnimation.BoneBind)
    (samples : list ArmatureAnimation.Keyframe) (key : Animation.Key Vector)
    (k : ArmatureAnimation.Keyframe) : Prop :=
  ArmatureAnimation.data_path k = "location"
  /\ ArmatureAnimation.frame k
     = Animation.frame_of_time (ArmatureAnimation.armature_fps fps) (Animation.time key)
  /\ exists rot sizeVal,
      vec_eq (ArmatureAnimation.location (ArmatureAnimation.bone k))
             (retargeted_location b rot sizeVal (Animation.value key))
      /\ rotation_for host samples (ArmatureAnimation.frame k) rot
      /\ scale_for host samples (ArmatureAnimation.frame k) sizeVal.

(** The dictionaries hold the samples keyed since [st0]. *)
Definition agrees (st0 : ArmatureAnimation.State)
    (samples : list ArmatureAnimation.Keyframe) (st : ArmatureAnimation.State) : Prop :=
  ArmatureAnimation.action st = ArmatureAnimation.action st0 ++ samples
  /\ Forall (fun k => ArmatureAnimation.data_path k <> "location") samples
  /\ (forall f, ArmatureAnimation.rot_keys_dict st !! f = rotation_sample_at samples f)
  /\ (forall f, ArmatureAnimation.scale_keys_dict st !! f = scale_sample_at samples f).

(** [path] lists the blocks from [bone] up the parent references to the
    child of [skelroot], [skelroot] left out. *)
Inductive parent_chain (sc : Armature.Scene) (skelroot : Armature.Node)
  : Armature.Node -> list Armature.Node -> Prop :=
  | chain_top bone :
      Armature.parent sc bone = Some skelroot ->
      parent_chain sc skelroot bone [bone]
  | chain_up bone boneparent path :
      Armature.parent sc bone = Some boneparent ->
      boneparent <> skelroot ->
      parent_chain sc skelroot boneparent path ->
      parent_chain sc skelroot bone (bone :: path).

(** The block is marked as a bone of some armature. *)
Definition marked (armatures : gmap Armature.Node (list Armature.Node))
    (n : Armature.Node) : Prop :=
  exists skelroot bones, armatures !! skelroot = Some bones /\ n ∈ bones.

(** The scale components differ by at least epsilon. *)
Definition non_uniform (props : Armature.Props) (scale_vec : Vector) : Prop :=
  Armature.epsilon props <= Qabs (vx scale_vec - vy scale_vec)
  \/ Armature.epsilon props <= Qabs (vy scale_vec - vz scale_vec).

(** The position of the greatest element, the first one among equals. *)
Fixpoint argmax_from (best_i : nat) (best : Q) (i : nat) (l : list Q) : nat :=
  match l with
  | [] => best_i
  | v :: l' =>
      if Py.ltb best v then argmax_from i v (S i) l'
      else argmax_from best_i best (S i) l'
  end.

Definition argmax (l : list Q) : nat :=
  match l with
  | [] => 0%nat
  | v :: l' => argmax_from 0 v 1 l'
  end.

(** [select_correction], in the specification's words: the greatest of the
    six signed candidates, each scaled by 200, names the axis; the
    alignment offset is the sum of the two other absolute components
    over the dominant one; below 0.25 the matrix of that axis is
    returned, else the identity. *)
Definition select_correction (dx dy dz : Q) : Matrix :=
  let idx := argmax [dx * 200; dy * 200; dz * 200; - dx * 200; - dy * 200; - dz * 200] in
  let alignment_offset :=
    match idx with
    | 0%nat | 3%nat => (Qabs dy + Qabs dz) / Qabs dx
    | 1%nat | 4%nat => (Qabs dz + Qabs dx) / Qabs dy
    | _ => (Qabs dx + Qabs dy) / Qabs dz
    end in
  if Py.ltb alignment_offset (1#4)
  then default identity33 (Armature.BONE_CORRECTION_MATRICES !! idx)
  else identity33.

(** The position a transform puts its origin at. *)
Definition position (m : Matrix44) : Vector := Vec (c3 (m0 m)) (c3 (m1 m)) (c3 (m2 m)).

(** The armature-space position of a block. *)
Definition head_position (sc : Armature.Scene) (n n_armature : Armature.Node) : Vector :=
  position (Armature.import_matrix sc n (Some n_armature)).

(** The armature-space positions of the immediate bone children. *)
Definition child_positions (sc : Armature.Scene)
    (armatures : gmap Armature.Node (list Armature.Node))
    (n n_armature : Armature.Node) : list Vector :=
  map (fun child => head_position sc child n_armature)
      (Armature.child_bones sc armatures n).

Definition average (ps : list Vector) : Vector :=
  let len := inject_Z (Z.of_nat (length ps)) in
  Vec (Py.sum (map vx ps) / len) (Py.sum (map vy ps) / len) (Py.sum (map vz ps) / len).

(** The distance the threshold is held against: the sum of the absolute
    differences of the components. *)
Definition distance (u v : Vector) : Q :=
  Qabs (vx u - vx v) + Qabs (vy u - vy v) + Qabs (vz u - vz v).

(** The test the code applies instead: the absolute value of the sum of
    the component differences, times 200, is below epsilon. *)
Definition signed_sum_small (props : Armature.Props) (u v : Vector) : Prop :=
  Qabs ((vx u - vx v) + (vy u - vy v) + (vz u - vz v)) * 200 < Armature.epsilon props.

End Spec.

(** ** Curve modes ([animation_import.py]) *)

Module Curves.

(** [get_extend_from_flags]: the log lines and the extend mode. *)
Definition get_extend_from_flags (flags : Z) : list string * string :=
  if (Z.land flags 6 =? 4)%Z then ([], "CONST")
  else if (Z.land flags 6 =? 0)%Z then ([], "CYCLIC")
  else (["Unsupported cycle mode in nif, using clamped."], "CONST").

End Curves.

(** ** More of the skeleton import ([armature_import.py]) *)

Module Skeleton.

Import Armature.

(** The [while] loop of [get_closest_bone], from the current [par];
    [fuel] bounds its turns and the outer [None] is a run that needs
    more. *)
Fixpoint closest_from (sc : Scene) (armatures : gmap Node (list Node)) (fuel : nat)
    (par : option Node) (skelroot : Node) : option (option Node) :=
  match fuel with
  | O => None
  | S fuel' =>
      match par with
      | None => Some None
      | Some p =>
          if bool_decide (p = skelroot) then Some None
          else if is_bone armatures (Some p) then Some (Some p)
          else closest_from sc armatures fuel' (parent sc p) skelroot
      end
  end.

(** [get_closest_bone]. *)
Definition get_closest_bone (sc : Scene) (armatures : gmap Node (list Node)) (fuel : nat)
    (ni_block skelroot : Node) : option (option Node) :=
  closest_from sc armatures fuel (parent sc ni_block) skelroot.

(** One turn of the loop over [skininst.bones] in [mark_armatures_bones]
    (lines 356-366); a skin may list [None]. *)
Definition mark_skin_bone (sc : Scene) (fuel : nat) (skelroot : Node)
    (boneBlock : option Node) (armatures : gmap Node (list Node))
  : option (Py.result (gmap Node (list Node))) :=
  match boneBlock with
  | None => Some (Py.Ok armatures)
  | Some b =>
      match armatures !! skelroot with
      | None => Some (Py.Raise Py.KeyError)
      | Some bones =>
          let armatures :=
            if negb (bool_decide (b ∈ bones))
            then <[skelroot := bones ++ [b]]> armatures
            else armatures in
          complete_bone_tree sc fuel b skelroot armatures
      end
  end.

(** The loop over [skininst.bones]. *)
Definition mark_skin_bones (sc : Scene) (fuel : nat) (skelroot : Node)
    (skin_bones : list (option Node)) (armatures : gmap Node (list Node))
  : option (Py.result (gmap Node (list Node))) :=
  fold_left (fun acc boneBlock =>
      match acc with
      | Some (Py.Ok armatures) => mark_skin_bone sc fuel skelroot boneBlock armatures
      | _ => acc
      end) skin_bones (Some (Py.Ok armatures)).

End Skeleton.

(** ** Notions for the further properties *)

Module Notions.

(** The proper ancestors of a block, from its parent up to the top. *)
Inductive ancestry (sc : Armature.Scene) : Armature.Node -> list Armature.Node -> Prop :=
  | ancestry_top n : Armature.parent sc n = None -> ancestry sc n []
  | ancestry_up n p l :
      Armature.parent sc n = Some p -> ancestry sc p l -> ancestry sc n (p :: l).

(** Bone-tree completeness: the parent of every listed bone is the
    armature root or listed too. *)
Definition complete (sc : Armature.Scene) (skelroot : Armature.Node)
    (bones : list Armature.Node) : Prop :=
  forall b, b ∈ bones ->
    exists p, Armature.parent sc b = Some p /\ (p = skelroot \/ p ∈ bones).

Definition transpose (m : Matrix) : Matrix := Mat (col0 m) (col1 m) (col2 m).

(** A rotation matrix: orthogonal, of determinant 1. *)
Definition rotation (m : Matrix) : Prop :=
  mat_eq (mat_mul m (transpose m)) identity33 /\ determinant m == 1.

(** The bone children below a block are less than [k] levels deep. *)
Fixpoint shallow (sc : Armature.Scene)
    (armatures : gmap Armature.Node (list Armature.Node)) (k : nat) (n : Armature.Node)
  : Prop :=
  match k with
  | O => False
  | S k' => Forall (shallow sc armatures k') (Armature.child_bones sc armatures n)
  end.

(** The edit bone [import_bone] may look up for a block is there: the
    one of its parent, read when bones are not realigned and the parent
    is a bone. *)
Definition parent_bone_known (sc : Armature.Scene) (props : Armature.Props)
    (armatures : gmap Armature.Node (list Armature.Node))
    (edit_bones : gmap Armature.Node Armature.EditBone) (n : Armature.Node) : Prop :=
  Armature.import_realign_bones props = 2%Z
  \/ Armature.is_bone armatures (Armature.parent sc n) = false
  \/ exists p, Armature.parent sc n = Some p /\ is_Some (edit_bones !! p).

End Notions.

(** * Properties *)

(** ** Python numerics *)

Section Numerics.

Lemma ltb_lt a b : Py.ltb a b = true <-> a < b.
Proof.
  unfold Py.ltb. rewrite negb_true_iff.
  destruct (Qle_bool b a) eqn:E.
  - apply Qle_bool_iff in E. split; [discriminate | intros; lra].
  - split; [intros _ | reflexivity].
    apply Qnot_le_lt. intros H. apply Qle_bool_iff in H. congruence.
Qed.

Lemma ltb_ge a b : Py.ltb a b = false <-> b <= a.
Proof. unfold Py.ltb. rewrite negb_false_iff. apply Qle_bool_iff. Qed.

Lemma geb_ge a b : Py.geb a b = true <-> b <= a.
Proof. apply Qle_bool_iff. Qed.

Lemma int_nonneg x : 0 <= x -> Py.int x = Qfloor x.
Proof.
  destruct x as [n d]. unfold Qle, Py.int, Qfloor. simpl. intros H.
  apply Z.quot_div_nonneg; lia.
Qed.

Lemma int_nonpos x : x <= 0 -> Py.int x = Qceiling x.
Proof.
  destruct x as [n d]. unfold Qle, Py.int, Qceiling, Qfloor. simpl. intros H.
  rewrite <- (Z.opp_involutive n) at 1. rewrite Z.quot_opp_l by lia.
  f_equal. apply Z.quot_div_nonneg; lia.
Qed.

(** [int] does not tell equal rationals apart. *)
Lemma int_comp x y : x == y -> Py.int x = Py.int y.
Proof.
  intros E. destruct (Qlt_le_dec x 0) as [H|H].
  - rewrite !int_nonpos by lra. now apply Qceiling_comp.
  - rewrite !int_nonneg by lra. now apply Qfloor_comp.
Qed.

Lemma Qfloor_unique x n : inject_Z n <= x -> x < inject_Z (n + 1) -> Qfloor x = n.
Proof.
  intros Hl Hu.
  assert (n <= Qfloor x)%Z.
  { rewrite <- (Qfloor_Z n). now apply Qfloor_resp_le. }
  assert (Qfloor x < n + 1)%Z.
  { rewrite Zlt_Qlt. eapply Qle_lt_trans; [apply Qfloor_le | exact Hu]. }
  lia.
Qed.

Lemma Qceiling_unique x n : inject_Z (n - 1) < x -> x <= inject_Z n -> Qceiling x = n.
Proof.
  intros Hl Hu. unfold Qceiling.
  rewrite (Qfloor_unique (- x) (- n)); [lia | |].
  - rewrite inject_Z_opp. lra.
  - replace (- n + 1)%Z with (- (n - 1))%Z by lia. rewrite inject_Z_opp. lra.
Qed.

(** On sums that do not fall below [-1/2], [int(x + 0.5)] is rounding. *)
Lemma int_half_round x : - (1#2) <= x -> Py.int (x + (1#2)) = Spec.round_half_up x.
Proof. intros H. unfold Spec.round_half_up. apply int_nonneg. lra. Qed.

Lemma round_half_up_nearest x :
  x - (1#2) < inject_Z (Spec.round_half_up x) /\ inject_Z (Spec.round_half_up x) <= x + (1#2).
Proof.
  unfold Spec.round_half_up. split.
  - pose proof (Qlt_floor (x + (1#2))) as H. rewrite inject_Z_plus in H.
    change (inject_Z 1) with 1 in H. lra.
  - apply Qfloor_le.
Qed.

Lemma round_half_up_Z n : Spec.round_half_up (inject_Z n) = n.
Proof.
  unfold Spec.round_half_up. apply Qfloor_unique.
  - lra.
  - rewrite inject_Z_plus. change (inject_Z 1) with 1. lra.
Qed.

Lemma round_half_up_comp x y : x == y -> Spec.round_half_up x = Spec.round_half_up y.
Proof. intros E. unfold Spec.round_half_up. apply Qfloor_comp. now rewrite E. Qed.

Lemma fold_left_Qplus xs a : fold_left Qplus xs a == a + Py.sum xs.
Proof.
  unfold Py.sum. revert a. induction xs as [|x xs IH]; intros a; simpl.
  - lra.
  - rewrite IH, (IH (0 + x)). lra.
Qed.

Lemma sum_cons x xs : Py.sum (x :: xs) == x + Py.sum xs.
Proof. unfold Py.sum at 1. simpl. rewrite fold_left_Qplus. lra. Qed.

Lemma sum_nonneg xs : Forall (fun x => 0 <= x) xs -> 0 <= Py.sum xs.
Proof.
  induction 1 as [|x xs Hx _ IH].
  - unfold Py.sum. simpl. lra.
  - rewrite sum_cons. lra.
Qed.

Lemma sum_zero xs : Forall (fun x => x == 0) xs -> Py.sum xs == 0.
Proof.
  induction 1 as [|x xs Hx _ IH].
  - reflexivity.
  - rewrite sum_cons. lra.
Qed.

Lemma sum_pos xs :
  Forall (fun x => 0 <= x) xs -> Exists (fun x => 0 < x) xs -> 0 < Py.sum xs.
Proof.
  induction 1 as [|x xs Hx Hxs IH]; intros E.
  - inversion E.
  - rewrite sum_cons. pose proof (sum_nonneg xs Hxs).
    inversion E; subst; [lra | specialize (IH ltac:(assumption)); lra].
Qed.

End Numerics.

(** ** Frame numbers *)

Section Frames.

Import Animation.

(** C8, as the code has it: for a key whose time [t] and frame rate
    [fps] have a product that is not negative, the frame is
    [round(t * fps) + 1], with [round] the nearest integer (a half
    upward); a key at time [0.0] is at frame [1] at every rate. *)
Theorem frame_of_time_round (fps t : Q) :
  0 <= t * fps ->
  frame_of_time fps t = (Spec.round_half_up (t * fps) + 1)%Z
  /\ frame_of_time fps 0 = 1%Z.
Proof.
  intros H. split.
  - unfold frame_of_time. rewrite int_half_round by lra. lia.
  - unfold frame_of_time. rewrite int_half_round by lra.
    rewrite (round_half_up_comp _ (inject_Z 0)) by (change (inject_Z 0) with 0; ring).
    now rewrite round_half_up_Z.
Qed.

Lemma frame_of_time_round_witness :
  frame_of_time 30 (1#10) = (Spec.round_half_up ((1#10) * 30) + 1)%Z
  /\ frame_of_time 30 0 = 1%Z.
Proof. apply (frame_of_time_round 30 (1#10)). vm_compute. discriminate. Defined.

(** C8, as stated, fails on a negative time: [int] truncates toward zero,
    so the key at time [-1.0] and 30 frames per second is put at frame
    [-28], and [round(-30) + 1] is [-29]. *)
Lemma frame_of_time_negative :
  frame_of_time 30 (-1) = (-28)%Z
  /\ (Spec.round_half_up (-1 * 30) + 1 = -29)%Z
  /\ ~ (forall fps t, frame_of_time fps t = (Spec.round_half_up (t * fps) + 1)%Z).
Proof.
  split; [reflexivity | split; [reflexivity |]].
  intros H. specialize (H 30 (-1)). vm_compute in H. discriminate.
Qed.

End Frames.

(** ** The frame rate *)

Section FrameRate.

Import Animation.

Lemma key_diff_nonneg fps t : 0 <= key_diff fps t.
Proof. apply Qabs_nonneg. Qed.

Lemma key_diff_round fps t :
  0 <= t * inject_Z fps -> key_diff fps t = Spec.rounding_error fps t.
Proof.
  intros H. unfold key_diff, Spec.rounding_error.
  now rewrite int_half_round by lra.
Qed.

Lemma key_diff_whole fps t k :
  (0 <= k)%Z -> t * inject_Z fps == inject_Z k -> key_diff fps t == 0.
Proof.
  intros Hk E. unfold key_diff.
  assert (0 <= inject_Z k) by (change 0 with (inject_Z 0); now rewrite <- Zle_Qle).
  rewrite int_half_round by lra.
  rewrite (round_half_up_comp _ _ E), round_half_up_Z.
  rewrite E. assert (inject_Z k - inject_Z k == 0) as -> by ring. reflexivity.
Qed.

Lemma key_diff_zero fps t :
  key_diff fps t == 0 -> exists n, t * inject_Z fps == inject_Z n.
Proof.
  unfold key_diff. intros H.
  exists (Py.int (t * inject_Z fps + (1#2))).
  set (n := inject_Z _) in *. set (x := t * inject_Z fps) in *.
  destruct (Qlt_le_dec (n - x) 0).
  - rewrite Qabs_neg in H by lra. lra.
  - rewrite Qabs_pos in H by lra. lra.
Qed.

Lemma rounding_diff_nonneg fps l : 0 <= rounding_diff fps l.
Proof.
  apply sum_nonneg. induction l; simpl; constructor; auto using key_diff_nonneg.
Qed.

Lemma rounding_diff_zero fps l :
  Forall (fun t => key_diff fps t == 0) l -> rounding_diff fps l == 0.
Proof.
  intros H. apply sum_zero. induction H; simpl; constructor; auto.
Qed.

Lemma rounding_diff_pos fps l :
  Exists (fun t => ~ key_diff fps t == 0) l -> 0 < rounding_diff fps l.
Proof.
  intros H. apply sum_pos.
  - clear H. induction l; simpl; constructor; auto using key_diff_nonneg.
  - induction H as [t l H | t l _ IH]; simpl.
    + left. pose proof (key_diff_nonneg fps t).
      destruct (Qlt_le_dec 0 (key_diff fps t)); [assumption|].
      exfalso. apply H. lra.
    + now right.
Qed.

(** The loop keeps the first of 30, 20, 25, 35 with the least sum. *)
Lemma fps_first_minimum (l : list Q) :
  l <> [] ->
  let d := fun c => rounding_diff c l in
  let r := fps_of_key_times l in
  (r = 30%Z /\ d 30%Z <= d 20%Z /\ d 30%Z <= d 25%Z /\ d 30%Z <= d 35%Z)
  \/ (r = 20%Z /\ d 20%Z < d 30%Z /\ d 20%Z <= d 25%Z /\ d 20%Z <= d 35%Z)
  \/ (r = 25%Z /\ d 25%Z < d 30%Z /\ d 25%Z < d 20%Z /\ d 25%Z <= d 35%Z)
  \/ (r = 35%Z /\ d 35%Z < d 30%Z /\ d 35%Z < d 20%Z /\ d 35%Z < d 25%Z).
Proof.
  intros Hl d r. subst r d. destruct l as [|t0 l]; [congruence|]. clear Hl.
  change (fps_of_key_times (t0 :: l))
    with (fst (fold_left (try_fps (t0 :: l)) [20; 25; 35]%Z
                         (30%Z, rounding_diff 30 (t0 :: l)))).
  generalize (t0 :: l). intros l'. unfold fold_left, try_fps. cbv beta.
  set (d30 := rounding_diff 30 l'). set (d20 := rounding_diff 20 l').
  set (d25 := rounding_diff 25 l'). set (d35 := rounding_diff 35 l').
  clearbody d30 d20 d25 d35.
  destruct (Py.ltb d20 d30) eqn:E20;
    [apply ltb_lt in E20 | apply ltb_ge in E20];
    (destruct (Py.ltb d25 _) eqn:E25;
      [apply ltb_lt in E25 | apply ltb_ge in E25]);
    (destruct (Py.ltb d35 _) eqn:E35;
      [apply ltb_lt in E35 | apply ltb_ge in E35]);
    cbn [fst];
    first [ left; repeat split; (reflexivity || lra)
          | right; left; repeat split; (reflexivity || lra)
          | right; right; left; repeat split; (reflexivity || lra)
          | right; right; right; repeat split; (reflexivity || lra) ].
Qed.

Lemma rounding_diff_round fps l :
  (0 <= fps)%Z -> Forall (fun t => 0 <= t) l ->
  rounding_diff fps l = Spec.total_rounding_error fps l.
Proof.
  intros Hf H. unfold rounding_diff, Spec.total_rounding_error. f_equal.
  assert (0 <= inject_Z fps) by (change 0 with (inject_Z 0); now rewrite <- Zle_Qle).
  induction H as [|t l Ht _ IH]; simpl; [reflexivity|].
  rewrite IH. f_equal. apply key_diff_round. now apply Qmult_le_0_compat.
Qed.

Lemma aligned_5_whole fps t :
  (0 <= fps)%Z -> (5 | fps)%Z -> Spec.aligned 5 t -> key_diff fps t == 0.
Proof.
  intros Hf [c ->] [k [Hk E]]. apply (key_diff_whole _ _ (c * k)); [lia|].
  rewrite !inject_Z_mult. change (inject_Z 5) with 5 in *.
  rewrite <- E. ring.
Qed.

Lemma aligned_25_whole t : Spec.aligned 25 t -> key_diff 25 t == 0.
Proof. intros [k [Hk E]]. now apply (key_diff_whole _ _ k). Qed.

Lemma aligned_25_not_5 c t :
  (c = 6 \/ c = 4)%Z -> Spec.aligned 25 t -> ~ Spec.aligned 5 t ->
  ~ key_diff (5 * c) t == 0.
Proof.
  intros Hc [k [Hk E]] N H. apply key_diff_zero in H as [n En]. apply N.
  rewrite inject_Z_mult in En. change (inject_Z 5) with 5 in En.
  change (inject_Z 25) with 25 in E.
  assert (Ec : inject_Z n * 5 == inject_Z k * inject_Z c) by (rewrite <- En, <- E; ring).
  change 5 with (inject_Z 5) in Ec. rewrite <- !inject_Z_mult in Ec.
  apply (proj1 (inject_Z_injective _ _)) in Ec.
  assert (exists m, (0 <= m)%Z /\ k = (5 * m)%Z) as [m [Hm ->]].
  { destruct Hc as [-> | ->]; [exists (n - k)%Z | exists (k - n)%Z]; lia. }
  exists m. split; [assumption|].
  rewrite inject_Z_mult in E. change (inject_Z 5) with 5 in *. lra.
Qed.

(** Whole numbers of [1/25] seconds: 25 is chosen unless every time is
    also a whole number of [1/5] seconds, when 30 stays. *)
Lemma fps_aligned (l : list Q) :
  l <> [] -> Forall (Spec.aligned 25) l ->
  (Forall (Spec.aligned 5) l -> fps_of_key_times l = 30%Z)
  /\ (Exists (fun t => ~ Spec.aligned 5 t) l -> fps_of_key_times l = 25%Z).
Proof.
  intros Hl H25.
  pose proof (fps_first_minimum l Hl) as Hmin. cbv beta zeta in Hmin.
  pose proof (rounding_diff_nonneg 30 l). pose proof (rounding_diff_nonneg 20 l).
  pose proof (rounding_diff_nonneg 35 l).
  assert (E25 : rounding_diff 25 l == 0).
  { apply rounding_diff_zero. eapply Forall_impl; [exact H25|].
    apply aligned_25_whole. }
  split.
  - intros H5.
    assert (E30 : rounding_diff 30 l == 0).
    { apply rounding_diff_zero. eapply Forall_impl; [exact H5|].
      intros t. apply aligned_5_whole; [lia | now exists 6%Z]. }
    destruct Hmin as [[-> _] | [[_ [? _]] | [[_ [? _]] | [_ [? _]]]]]; [reflexivity | lra ..].
  - intros N5.
    assert (0 < rounding_diff 30 l /\ 0 < rounding_diff 20 l) as [? ?].
    { split; apply rounding_diff_pos.
      - clear -N5 H25. induction N5; inversion H25; subst; [left | right; auto].
        apply (aligned_25_not_5 6); auto.
      - clear -N5 H25. induction N5; inversion H25; subst; [left | right; auto].
        apply (aligned_25_not_5 4); auto. }
    destruct Hmin as [[_ [_ [? _]]] | [[_ [_ [? _]]] | [[-> _] | [_ [_ [_ ?]]]]]];
      [lra | lra | reflexivity | lra].
Qed.

(** C5, as the code has it: with no key times the rate is 30; otherwise,
    on key times that are not negative, the rate is the first of
    30, 20, 25, 35 whose total rounding error [Σ|round(t·fps) − t·fps|]
    is least, a later candidate replacing an earlier one only when it is
    strictly better; times that are whole numbers of 1/25 s give 25,
    unless all of them are whole numbers of 1/5 s, which give 30. *)
Theorem get_frames_per_second_spec (roots : list (list Block)) :
  let l := key_times roots in
  let r := get_frames_per_second roots in
  let d := fun c => Spec.total_rounding_error c l in
  (l = [] -> r = 30%Z)
  /\ (l <> [] -> Forall (fun t => 0 <= t) l ->
      (r = 30%Z /\ d 30%Z <= d 20%Z /\ d 30%Z <= d 25%Z /\ d 30%Z <= d 35%Z)
      \/ (r = 20%Z /\ d 20%Z < d 30%Z /\ d 20%Z <= d 25%Z /\ d 20%Z <= d 35%Z)
      \/ (r = 25%Z /\ d 25%Z < d 30%Z /\ d 25%Z < d 20%Z /\ d 25%Z <= d 35%Z)
      \/ (r = 35%Z /\ d 35%Z < d 30%Z /\ d 35%Z < d 20%Z /\ d 35%Z < d 25%Z))
  /\ (l <> [] -> Forall (Spec.aligned 25) l ->
      (Forall (Spec.aligned 5) l -> r = 30%Z)
      /\ (Exists (fun t => ~ Spec.aligned 5 t) l -> r = 25%Z)).
Proof.
  intros l r d. subst r d. unfold get_frames_per_second. fold l.
  split; [| split].
  - intros ->. reflexivity.
  - intros Hl Hpos. pose proof (fps_first_minimum l Hl) as Hmin. cbv beta zeta in Hmin.
    rewrite !rounding_diff_round in Hmin by (assumption || lia). exact Hmin.
  - apply fps_aligned.
Qed.

Lemma get_frames_per_second_spec_witness :
  let roots := [[UVDataBlock [[1#25; 2#25]]]] in
  key_times roots <> [] /\ Forall (Spec.aligned 25) (key_times roots)
  /\ get_frames_per_second roots = 25%Z.
Proof.
  intros roots.
  assert (Hl : key_times roots <> []) by discriminate.
  assert (H25 : Forall (Spec.aligned 25) (key_times roots)).
  { repeat constructor; [exists 1%Z | exists 2%Z]; split; (lia || reflexivity). }
  split; [exact Hl | split; [exact H25 |]].
  destruct (get_frames_per_second_spec roots) as [_ [_ H]].
  apply (H Hl H25). left. intros [k [Hk E]].
  unfold Qeq in E. simpl in E. lia.
Defined.

(** C5, as stated, fails on times that are whole numbers of 1/25 s and
    of 1/30 s alike: the single key time [0.2] leaves the rate at 30.  On
    a negative time the sums are not rounding errors either: for the
    single key time [-0.04] the rate is 20, and 25 has rounding error
    0. *)
Lemma get_frames_per_second_aligned_30 :
  let roots := [[UVDataBlock [[1#5]]]] in
  (key_times roots = [1#5]
   /\ Forall (Spec.aligned 25) (key_times roots)
   /\ get_frames_per_second roots = 30%Z
   /\ get_frames_per_second roots <> 25%Z)
  /\ (get_frames_per_second [[UVDataBlock [[-1#25]]]] = 20%Z
      /\ Spec.total_rounding_error 25 [-1#25] == 0
      /\ 0 < Spec.total_rounding_error 20 [-1#25]).
Proof.
  intros roots. split; [split; [reflexivity | split; [| split]] |].
  - repeat constructor. exists 5%Z. split; [lia | reflexivity].
  - reflexivity.
  - discriminate.
  - split; [reflexivity | split; reflexivity].
Qed.

End FrameRate.

(** ** Keyframe retargeting *)

Section Retargeting.

Import Animation ArmatureAnimation.

Variable host : Host.
Variable fps : FrameRates.

Lemma py_div_ok a b : ~ b == 0 -> py_div a b = Py.Ok (a / b).
Proof.
  intros H. unfold py_div. destruct (Qeq_bool b 0) eqn:E; [|reflexivity].
  apply Qeq_bool_iff in E. contradiction.
Qed.

Lemma py_div_zero (a d : Q) : d == 0 -> py_div a d = Py.Raise Py.ZeroDivisionError.
Proof.
  intros H. unfold py_div. now rewrite (proj2 (Qeq_bool_iff d 0) H).
Qed.

Lemma for_each_raised {A S} (body : A -> S -> Py.result S) (xs : list A) (e : Py.exn) :
  fold_left (fun r x => Py.bind r (body x)) xs (Py.Raise e) = Py.Raise e.
Proof. induction xs as [|x xs IH]; [reflexivity | exact IH]. Qed.

(** A loop whose first turn raises raises. *)
Lemma for_each_raises {A S} (body : A -> S -> Py.result S) (x : A) (xs : list A)
    (st : S) (e : Py.exn) :
  body x st = Py.Raise e -> for_each (x :: xs) body st = Py.Raise e.
Proof.
  intros H. unfold for_each. cbn [fold_left Py.bind]. rewrite H. apply for_each_raised.
Qed.

(** The quaternion and the B-spline branch compute the conjugated
    delta. *)
Lemma quaternion_rotation_delta b q :
  quaternion_rotation b q
  = Spec.conjugated_delta (extra_matrix_quat_inv b) (niBone_bind_quat_inv b) q
                          (extra_matrix_quat b)
  /\ bspline_rotation b q = quaternion_rotation b q.
Proof. split; reflexivity. Qed.

(** A scale key raises: [ZeroDivisionError] on a bind scale of zero,
    else [TypeError]. *)
Lemma scale_key_raises b (key : Key Q) (st : State) :
  (~ niBone_bind_scale b == 0 -> scale_key fps b key st = Py.Raise Py.TypeError)
  /\ (niBone_bind_scale b == 0 -> scale_key fps b key st = Py.Raise Py.ZeroDivisionError).
Proof.
  unfold scale_key. split; intros H.
  - now rewrite py_div_ok by assumption.
  - now rewrite py_div_zero by assumption.
Qed.

(** C1 on the code.  A quaternion key and a B-spline rotation sample
    set the pose rotation to the conjugated delta
    [R_x⁻¹ · (R_bind⁻¹ · R_total) · R_x] and key it.  An Euler key sets
    and keys nothing: the turn of the loop raises [AttributeError]
    before it computes a rotation, and so does the import of keyframe
    data that holds an Euler key on each axis. *)
Theorem rotation_key_branches (b : BoneBind) :
  (forall (key : Key Quaternion) (st : State), exists st',
      quaternion_key fps b key st = Py.Ok st'
      /\ rotation_quaternion (posebone st')
         = Spec.conjugated_delta (extra_matrix_quat_inv b) (niBone_bind_quat_inv b)
                                 (value key) (extra_matrix_quat b)
      /\ action st' = action st
           ++ [Insert "rotation_quaternion"
                      (frame_of_time (armature_fps fps) (time key)) (posebone st')])
  /\ (forall (store : bool) (t : Q) (quat : Quaternion) (st : State), exists st',
      bspline_rotation_sample fps b store (t, quat) st = Py.Ok st'
      /\ rotation_quaternion (posebone st')
         = Spec.conjugated_delta (extra_matrix_quat_inv b) (niBone_bind_quat_inv b)
                                 quat (extra_matrix_quat b)
      /\ action st' = action st
           ++ [Insert "rotation_quaternion"
                      (frame_of_time (animation_fps fps) t) (posebone st')])
  /\ (forall (xyz : Key Q * Key Q * Key Q) (st : State),
      euler_key xyz st = Py.Raise Py.AttributeError)
  /\ (forall (kfd : NiKeyframeData) (st : State),
      scales kfd = [] -> rotation_type kfd = 4%Z ->
      zip3 (xyz_rotations_0 kfd) (xyz_rotations_1 kfd) (xyz_rotations_2 kfd) <> [] ->
      import_bone_animation host fps b (KeyframeData kfd) st
      = Py.Raise Py.AttributeError).
Proof.
  split; [| split; [| split]].
  - intros key st. eexists. split; [reflexivity|]. split; reflexivity.
  - intros store t quat st. eexists. split; [reflexivity|].
    destruct store; split; reflexivity.
  - reflexivity.
  - intros kfd st Hs Ht Hz. unfold import_bone_animation, import_keyframe_data.
    rewrite Hs. cbn [for_each fold_left Py.bind]. unfold rotation_keys.
    rewrite Ht. cbn [Z.eqb Pos.eqb].
    destruct (zip3 _ _ _) as [|xyz keys]; [congruence|].
    now rewrite (for_each_raises euler_key xyz keys _ Py.AttributeError).
Qed.

End Retargeting.

Lemma rotation_key_branches_witness :
  let host := ArmatureAnimation.MkHost (fun _ => []) (fun _ => quat_identity) in
  let fps := ArmatureAnimation.MkFrameRates 30 30 30 in
  let key := Animation.MkKey 0 0 in
  let kfd := Animation.MkKeyframeData [] [] 4 [key] [key] [key] [] in
  let st := ArmatureAnimation.MkState
              (ArmatureAnimation.MkPoseBone (Vec 1 1 1) quat_identity (Vec 0 0 0) (Vec 0 0 0))
              [] ∅ ∅ in
  ArmatureAnimation.import_bone_animation host fps Spec.identity_bind
    (ArmatureAnimation.KeyframeData kfd) st = Py.Raise Py.AttributeError.
Proof.
  intros host fps key kfd st.
  apply (rotation_key_branches host fps Spec.identity_bind);
    [reflexivity | reflexivity | discriminate].
Defined.

Section RetargetingIdentity.

Import Animation ArmatureAnimation.

Variable host : Host.
Variable fps : FrameRates.

Ltac unfold_algebra :=
  cbv [vec_eq quat_eq mat_eq mat_vec mat_scale mat_mul vec_add vec_sub dot diagonal
       col0 col1 col2 cross quat_identity identity33
       quaternion_rotation bspline_rotation Spec.identity_bind
       niBone_bind_scale niBone_bind_rot_inv niBone_bind_quat_inv niBone_bind_trans
       extra_matrix_scale extra_matrix_rot_inv extra_matrix_quat
       extra_matrix_quat_inv extra_matrix_trans
       vx vy vz qw qx qy qz row0 row1 row2].

(** C7 on the code, with the identity as bind pose and as extra matrix.
    A quaternion key [q] sets the pose rotation to [q] and a translation
    key [t] the pose location to [t], and each is keyed.  A scale key
    [s] does not set the pose scale: its turn raises [TypeError], and so
    does the import of keyframe data with a scale key; an Euler key
    raises [AttributeError]. *)
Theorem identity_bind_raw_keys (st : State) :
  (forall scaleKey : Key Q,
      scale_key fps Spec.identity_bind scaleKey st = Py.Raise Py.TypeError)
  /\ (forall kfd : NiKeyframeData, scales kfd <> [] ->
      import_bone_animation host fps Spec.identity_bind (KeyframeData kfd) st
      = Py.Raise Py.TypeError)
  /\ (forall xyz : Key Q * Key Q * Key Q,
      euler_key xyz st = Py.Raise Py.AttributeError)
  /\ (forall key : Key Quaternion, exists st',
      quaternion_key fps Spec.identity_bind key st = Py.Ok st'
      /\ quat_eq (rotation_quaternion (posebone st')) (value key)
      /\ action st' = action st
           ++ [Insert "rotation_quaternion"
                      (frame_of_time (armature_fps fps) (time key)) (posebone st')])
  /\ (forall key : Key Vector, exists st',
      translation_key host fps Spec.identity_bind key st = Py.Ok st'
      /\ vec_eq (location (posebone st')) (value key)
      /\ action st' = action st
           ++ [Insert "location" (frame_of_time (armature_fps fps) (time key))
                      (posebone st')]).
Proof.
  assert (N : ~ niBone_bind_scale Spec.identity_bind == 0)
    by (intros H; discriminate H).
  split; [| split; [| split; [| split]]].
  - intros key. now apply scale_key_raises.
  - intros kfd Hs. unfold import_bone_animation, import_keyframe_data.
    destruct (scales kfd) as [|key keys]; [congruence|].
    rewrite (for_each_raises (scale_key fps Spec.identity_bind) key keys _ Py.TypeError);
      [reflexivity | now apply scale_key_raises].
  - reflexivity.
  - intros [t [w x y z]]. eexists. split; [reflexivity|]. split; [| reflexivity].
    cbn [posebone store_rot keyframe_insert with_posebone set_rotation_quaternion
         rotation_quaternion value quaternion_rotation Spec.identity_bind
         niBone_bind_quat_inv extra_matrix_quat_inv extra_matrix_quat].
    unfold_algebra. repeat split; ring.
  - intros [t [x y z]]. unfold translation_key.
    generalize (rotation_at host st
                  (frame_of_time (armature_fps fps) (time (MkKey t (Vec x y z))))).
    generalize (scale_at host st
                  (frame_of_time (armature_fps fps) (time (MkKey t (Vec x y z))))).
    intros sizeVal [[a b c] [d e f] [g h i]].
    eexists. split; [reflexivity|]. split; [| reflexivity].
    cbn [posebone keyframe_insert with_posebone set_location location value
         Spec.identity_bind niBone_bind_scale niBone_bind_rot_inv niBone_bind_trans
         extra_matrix_rot_inv extra_matrix_scale extra_matrix_trans].
    unfold_algebra. repeat split; field.
Qed.

End RetargetingIdentity.

Lemma identity_bind_raw_keys_witness :
  let host := ArmatureAnimation.MkHost (fun _ => []) (fun _ => quat_identity) in
  let fps := ArmatureAnimation.MkFrameRates 30 30 30 in
  let kfd := Animation.MkKeyframeData [] [Animation.MkKey 0 2] 1 [] [] [] [] in
  let st := ArmatureAnimation.MkState
              (ArmatureAnimation.MkPoseBone (Vec 1 1 1) quat_identity (Vec 0 0 0) (Vec 0 0 0))
              [] ∅ ∅ in
  ArmatureAnimation.import_bone_animation host fps Spec.identity_bind
    (ArmatureAnimation.KeyframeData kfd) st = Py.Raise Py.TypeError.
Proof.
  intros host fps kfd st.
  apply (identity_bind_raw_keys host fps st). discriminate.
Defined.

(** ** Translations come after rotations and scales *)

Section TranslationOrder.

Import Animation ArmatureAnimation.

Variable host : Host.
Variable fps : FrameRates.
Variable b : BoneBind.
Hypothesis bind_scale_nonzero : ~ niBone_bind_scale b == 0.
Hypothesis extra_scale_nonzero : ~ extra_matrix_scale b == 0.

Lemma for_each_cons {A S} (body : A -> S -> Py.result S) x xs st st1 :
  body x st = Py.Ok st1 -> for_each (x :: xs) body st = for_each xs body st1.
Proof. intros H. unfold for_each. simpl. now rewrite H. Qed.

(** A loop whose turns return and keep [P] returns and keeps [P]. *)
Lemma for_each_inv {A S} (P : S -> Prop) (body : A -> S -> Py.result S) xs :
  (forall x st, P st -> exists st', body x st = Py.Ok st' /\ P st') ->
  forall st, P st -> exists st', for_each xs body st = Py.Ok st' /\ P st'.
Proof.
  intros Hbody. induction xs as [|x xs IH]; intros st HP.
  - exists st. split; [reflexivity | assumption].
  - destruct (Hbody x st HP) as [st1 [E1 HP1]].
    rewrite (for_each_cons _ _ _ _ _ E1). now apply IH.
Qed.

Lemma rotation_sample_snoc samples k f :
  Spec.rotation_sample_at (samples ++ [k]) f
  = if Spec.is_rotation k && (frame k =? f)%Z
    then Some (rotation_quaternion (bone k))
    else Spec.rotation_sample_at samples f.
Proof. unfold Spec.rotation_sample_at. now rewrite fold_left_app. Qed.

Lemma scale_sample_snoc samples k f :
  Spec.scale_sample_at (samples ++ [k]) f
  = if Spec.is_scale k && (frame k =? f)%Z
    then Some (vx (scale (bone k)))
    else Spec.scale_sample_at samples f.
Proof. unfold Spec.scale_sample_at. now rewrite fold_left_app. Qed.

Lemma rotation_sample_none samples :
  Forall (fun k => Spec.is_rotation k = false) samples ->
  forall f, Spec.rotation_sample_at samples f = None.
Proof.
  induction samples as [|k samples IH] using rev_ind; intros H f; [reflexivity|].
  apply Forall_app in H as [H1 H2]. inversion H2; subst.
  rewrite rotation_sample_snoc. rewrite H3. simpl. now apply IH.
Qed.

Lemma rotation_sample_some samples :
  Exists (fun k => Spec.is_rotation k = true) samples ->
  exists f, Spec.rotation_sample_at samples f <> None.
Proof.
  induction samples as [|k samples IH] using rev_ind; intros H.
  - inversion H.
  - destruct (Spec.is_rotation k) eqn:E.
    + exists (frame k). rewrite rotation_sample_snoc, E, Z.eqb_refl. discriminate.
    + apply Exists_app in H as [H | H].
      * destruct (IH H) as [f Hf]. exists f. now rewrite rotation_sample_snoc, E.
      * inversion H; subst; [congruence | inversion H1].
Qed.

Lemma scale_sample_none samples :
  Forall (fun k => Spec.is_scale k = false) samples ->
  forall f, Spec.scale_sample_at samples f = None.
Proof.
  induction samples as [|k samples IH] using rev_ind; intros H f; [reflexivity|].
  apply Forall_app in H as [H1 H2]. inversion H2; subst.
  rewrite scale_sample_snoc. rewrite H3. simpl. now apply IH.
Qed.

Lemma scale_sample_some samples :
  Exists (fun k => Spec.is_scale k = true) samples ->
  exists f, Spec.scale_sample_at samples f <> None.
Proof.
  induction samples as [|k samples IH] using rev_ind; intros H.
  - inversion H.
  - destruct (Spec.is_scale k) eqn:E.
    + exists (frame k). rewrite scale_sample_snoc, E, Z.eqb_refl. discriminate.
    + apply Exists_app in H as [H | H].
      * destruct (IH H) as [f Hf]. exists f. now rewrite scale_sample_snoc, E.
      * inversion H; subst; [congruence | inversion H1].
Qed.

Lemma truthy_empty {A} (d : gmap Z A) : truthy d = false <-> d = ∅.
Proof.
  unfold truthy. rewrite negb_false_iff, bool_decide_eq_true.
  apply map_to_list_empty_iff.
Qed.

(** A loop whose turns return, keep [P] and key one sample each returns,
    keeps [P] and has keyed one sample for each element, in order. *)
Lemma for_each_samples {A} (P : State -> Prop) (T : A -> Keyframe -> Prop)
    (body : A -> State -> Py.result State) xs :
  (forall x st, P st -> exists st' k,
      body x st = Py.Ok st' /\ P st' /\ action st' = action st ++ [k] /\ T x k) ->
  forall st, P st -> exists st' ks,
      for_each xs body st = Py.Ok st' /\ P st'
      /\ action st' = action st ++ ks /\ Forall2 T xs ks.
Proof.
  intros Hbody. induction xs as [|x xs IH]; intros st HP.
  - exists st, []. repeat split; [assumption | now rewrite app_nil_r | constructor].
  - destruct (Hbody x st HP) as [st1 [k [E1 [HP1 [Ha HT]]]]].
    destruct (IH st1 HP1) as [st' [ks [E [HP' [Ha' HF]]]]].
    exists st', (k :: ks). rewrite (for_each_cons _ _ _ _ _ E1).
    repeat split; [assumption | assumption | | now constructor].
    rewrite Ha', Ha, <- app_assoc. reflexivity.
Qed.

Lemma agrees_snoc st0 samples st st' k :
  Spec.agrees st0 samples st ->
  action st' = action st ++ [k] ->
  data_path k <> "location" ->
  (forall f, rot_keys_dict st' !! f
             = if Spec.is_rotation k && (frame k =? f)%Z
               then Some (rotation_quaternion (bone k)) else rot_keys_dict st !! f) ->
  (forall f, scale_keys_dict st' !! f
             = if Spec.is_scale k && (frame k =? f)%Z
               then Some (vx (scale (bone k))) else scale_keys_dict st !! f) ->
  Spec.agrees st0 (samples ++ [k]) st'.
Proof.
  intros [Ha [Hn [Hr Hs]]] Ha' Hk Hr' Hs'. repeat split.
  - now rewrite Ha', Ha, <- app_assoc.
  - apply Forall_app. split; [assumption | now repeat constructor].
  - intros f. now rewrite Hr', rotation_sample_snoc, Hr.
  - intros f. now rewrite Hs', scale_sample_snoc, Hs.
Qed.

Lemma lookup_insert_frame {A} (d : gmap Z A) (f f' : Z) (v : A) :
  <[f := v]> d !! f' = if (f =? f')%Z then Some v else d !! f'.
Proof.
  destruct (Z.eqb_spec f f') as [-> | N].
  - apply lookup_insert_eq.
  - now apply lookup_insert_ne.
Qed.

Lemma quaternion_key_sample st0 (key : Key Quaternion) st :
  (exists samples, Spec.agrees st0 samples st) ->
  exists st' k, quaternion_key fps b key st = Py.Ok st'
    /\ (exists samples, Spec.agrees st0 samples st')
    /\ action st' = action st ++ [k] /\ Spec.quaternion_sample fps b key k.
Proof.
  intros [samples H]. unfold quaternion_key.
  eexists. eexists. split; [reflexivity|].
  split; [| split; [reflexivity | repeat split]].
  eexists. eapply agrees_snoc; [exact H | reflexivity | discriminate | |].
  - intros f. cbn. apply lookup_insert_frame.
  - intros f. reflexivity.
Qed.

Lemma rotation_at_for st0 samples st2 st f :
  Spec.agrees st0 samples st2 ->
  rot_keys_dict st = rot_keys_dict st2 ->
  Spec.rotation_for host samples f (rotation_at host st f).
Proof.
  intros [_ [_ [Hr _]]] Hd. unfold Spec.rotation_for, rotation_at.
  rewrite <- Hr, Hd. destruct (truthy (rot_keys_dict st2)) eqn:T.
  - destruct (rot_keys_dict st2 !! f) eqn:E; [reflexivity|]. split.
    + intros Hnone. exfalso.
      assert (rot_keys_dict st2 = ∅) as E0.
      { apply map_eq. intros i. rewrite lookup_empty, Hr.
        now apply rotation_sample_none. }
      apply truthy_empty in E0. congruence.
    + intros _. eexists. reflexivity.
  - apply truthy_empty in T. rewrite T, lookup_empty. split; [reflexivity|].
    intros Hsome. exfalso. destruct (rotation_sample_some _ Hsome) as [i Hi].
    apply Hi. now rewrite <- Hr, T, lookup_empty.
Qed.

Lemma scale_at_for st0 samples st2 st f :
  Spec.agrees st0 samples st2 ->
  scale_keys_dict st = scale_keys_dict st2 ->
  Spec.scale_for host samples f (scale_at host st f).
Proof.
  intros [_ [_ [_ Hs]]] Hd. unfold Spec.scale_for, scale_at.
  rewrite <- Hs, Hd. destruct (truthy (scale_keys_dict st2)) eqn:T.
  - destruct (scale_keys_dict st2 !! f) eqn:E; [reflexivity|]. split.
    + intros Hnone. exfalso.
      assert (scale_keys_dict st2 = ∅) as E0.
      { apply map_eq. intros i. rewrite lookup_empty, Hs.
        now apply scale_sample_none. }
      apply truthy_empty in E0. congruence.
    + intros _. eexists. reflexivity.
  - apply truthy_empty in T. rewrite T, lookup_empty. split; [reflexivity|].
    intros Hsome. exfalso. destruct (scale_sample_some _ Hsome) as [i Hi].
    apply Hi. now rewrite <- Hs, T, lookup_empty.
Qed.

Lemma bind_relative_ok trans :
  bind_relative b trans
  = Py.Ok (mat_vec (mat_scale (niBone_bind_rot_inv b) (1 / niBone_bind_scale b))
                   (vec_sub trans (niBone_bind_trans b))).
Proof. unfold bind_relative. now rewrite py_div_ok by assumption. Qed.

Lemma final_location_ok rot sizeVal locVal :
  final_location b rot sizeVal locVal
  = Py.Ok (mat_vec (mat_scale (extra_matrix_rot_inv b) (1 / extra_matrix_scale b))
             (vec_sub (vec_add (mat_vec (mat_mul rot (diagonal sizeVal))
                                        (extra_matrix_trans b)) locVal)
                      (extra_matrix_trans b))).
Proof. unfold final_location. now rewrite py_div_ok by assumption. Qed.

(** What the code computes is the retargeted location. *)
Lemma final_location_retargeted (b0 : BoneBind) rot sizeVal trans :
  ~ niBone_bind_scale b0 == 0 -> ~ extra_matrix_scale b0 == 0 ->
  vec_eq (mat_vec (mat_scale (extra_matrix_rot_inv b0) (1 / extra_matrix_scale b0))
            (vec_sub (vec_add (mat_vec (mat_mul rot (diagonal sizeVal))
                                       (extra_matrix_trans b0))
                              (mat_vec (mat_scale (niBone_bind_rot_inv b0)
                                                  (1 / niBone_bind_scale b0))
                                       (vec_sub trans (niBone_bind_trans b0))))
                     (extra_matrix_trans b0)))
         (Spec.retargeted_location b0 rot sizeVal trans).
Proof.
  destruct b0 as [bs [[b00 b01 b02] [b10 b11 b12] [b20 b21 b22]] bq [tbx tby tbz]
                  es [[e00 e01 e02] [e10 e11 e12] [e20 e21 e22]] eq eqi [tex tey tez]].
  destruct rot as [[r00 r01 r02] [r10 r11 r12] [r20 r21 r22]].
  destruct trans as [tx ty tz].
  cbn [niBone_bind_scale extra_matrix_scale]. intros Hb He.
  cbv [vec_eq Spec.retargeted_location Spec.vec_scale mat_vec mat_scale mat_mul
       vec_add vec_sub dot diagonal col0 col1 col2
       niBone_bind_scale niBone_bind_rot_inv niBone_bind_trans
       extra_matrix_scale extra_matrix_rot_inv extra_matrix_trans
       vx vy vz row0 row1 row2].
  repeat split; field; split; assumption.
Qed.

Lemma rotation_at_frame st f : Spec.frame_rotation host st f (rotation_at host st f).
Proof.
  unfold Spec.frame_rotation, rotation_at.
  destruct (truthy (rot_keys_dict st)) eqn:T.
  - destruct (rot_keys_dict st !! f); [reflexivity|]. split; [| reflexivity].
    intros E0. apply truthy_empty in E0. congruence.
  - apply truthy_empty in T. rewrite T, lookup_empty. split; [reflexivity | congruence].
Qed.

Lemma scale_at_frame st f : Spec.frame_scale host st f (scale_at host st f).
Proof.
  unfold Spec.frame_scale, scale_at.
  destruct (truthy (scale_keys_dict st)) eqn:T.
  - destruct (scale_keys_dict st !! f); [reflexivity|]. split; [| reflexivity].
    intros E0. apply truthy_empty in E0. congruence.
  - apply truthy_empty in T. rewrite T, lookup_empty. split; [reflexivity | congruence].
Qed.

(** A translation key, on any dictionaries. *)
Lemma translation_key_step (key : Key Vector) (st : State) :
  exists st' k,
    translation_key host fps b key st = Py.Ok st'
    /\ action st' = action st ++ [k]
    /\ rot_keys_dict st' = rot_keys_dict st
    /\ scale_keys_dict st' = scale_keys_dict st
    /\ data_path k = "location"
    /\ frame k = frame_of_time (armature_fps fps) (time key)
    /\ vec_eq (location (bone k))
              (Spec.retargeted_location b (rotation_at host st (frame k))
                                        (scale_at host st (frame k)) (value key)).
Proof.
  unfold translation_key.
  rewrite bind_relative_ok. cbn [Py.bind].
  rewrite final_location_ok. cbn [Py.bind].
  eexists. eexists. split; [reflexivity|].
  repeat (split; [reflexivity|]).
  cbn [bone frame location with_posebone set_location posebone].
  now apply final_location_retargeted.
Qed.

Lemma translation_key_sample st0 samples st2 (key : Key Vector) st :
  Spec.agrees st0 samples st2 ->
  rot_keys_dict st = rot_keys_dict st2 /\ scale_keys_dict st = scale_keys_dict st2 ->
  exists st' k, translation_key host fps b key st = Py.Ok st'
    /\ (rot_keys_dict st' = rot_keys_dict st2 /\ scale_keys_dict st' = scale_keys_dict st2)
    /\ action st' = action st ++ [k] /\ Spec.location_sample host fps b samples key k.
Proof.
  intros Hag [Hr Hs].
  destruct (translation_key_step key st) as [st' [k [E [Ha [Hr' [Hs' [Hp [Hf Hl]]]]]]]].
  exists st', k. split; [exact E|]. split; [split; congruence|].
  split; [exact Ha|]. split; [exact Hp|]. split; [exact Hf|].
  eexists. eexists. split; [exact Hl|].
  split; [eapply rotation_at_for | eapply scale_at_for]; eassumption.
Qed.

(** Without a rotation channel the curves give the identity rotation,
    without a scale channel the scale 1.0. *)
Lemma slow_defaults (fcurves : list FCurve) (f : Z) :
  (Forall (fun fc => contains "rotation_quaternion" (fc_data_path fc) = false
                     /\ contains "rotation_euler" (fc_data_path fc) = false) fcurves ->
   slow_rotation host fcurves f = identity33)
  /\ (Forall (fun fc => String.eqb (fc_data_path fc) "scale" = false) fcurves ->
      slow_scale fcurves f = 1).
Proof.
  split; intros H.
  - unfold slow_rotation.
    assert (fold_left (fun '(quat, euler) fc =>
        if contains "rotation_quaternion" (fc_data_path fc) then
          (set_quat_component (array_index fc) (evaluate fc f) quat, euler)
        else if contains "rotation_euler" (fc_data_path fc) then
          (quat, Some (set_euler_component (array_index fc) (evaluate fc f)
                                           (Vec 0 0 0)))
        else (quat, euler)) fcurves (quat_identity, None) = (quat_identity, None)) as ->;
      [| reflexivity].
    induction H as [|fc fcurves [H1 H2] _ IH]; [reflexivity|].
    simpl. rewrite H1, H2. exact IH.
  - unfold slow_scale. induction H as [|fc fcurves H1 _ IH]; [reflexivity|].
    simpl. rewrite H1. exact IH.
Qed.


End TranslationOrder.


(** ** The bone tree *)

Section BoneTree.

Import Armature.

Variable sc : Scene.

Lemma is_bone_marked (armatures : Armatures) (n : Node) :
  is_bone armatures (Some n) = true <-> Spec.marked armatures n.
Proof.
  unfold is_bone, Spec.marked. rewrite existsb_exists. split.
  - intros [bones [Hin Hn]]. apply bool_decide_eq_true in Hn.
    apply list_elem_of_In, list_elem_of_fmap in Hin as [[r bs] [-> Hin]].
    apply elem_of_map_to_list in Hin. now exists r, bs.
  - intros [r [bones [Hr Hn]]]. exists bones. split.
    + apply list_elem_of_In, list_elem_of_fmap. exists (r, bones).
      split; [reflexivity|]. now apply elem_of_map_to_list.
    + apply bool_decide_eq_true_2. exact Hn.
Qed.

Lemma complete_bone_tree_chain (skelroot bone : Node) (path : list Node) :
  Spec.parent_chain sc skelroot bone path ->
  forall (fuel : nat) (armatures : Armatures) (bones : list Node),
    (length path <= fuel)%nat ->
    armatures !! skelroot = Some bones ->
    bone ∈ bones ->
    exists armatures' bones',
      complete_bone_tree sc fuel bone skelroot armatures = Some (Py.Ok armatures')
      /\ armatures' !! skelroot = Some bones'
      /\ (forall n, n ∈ bones' <-> n ∈ bones \/ n ∈ path)
      /\ (forall r, r <> skelroot -> armatures' !! r = armatures !! r).
Proof.
  induction 1 as [bone Hp | bone boneparent path Hp Hne Hchain IH];
    intros fuel armatures bones Hfuel Hroot Hbone;
    (destruct fuel as [|fuel]; [simpl in Hfuel; lia|]);
    simpl; rewrite Hroot, (bool_decide_eq_true_2 _ Hbone), Hp; simpl.
  - rewrite bool_decide_eq_false_2 by (intros N; now apply N).
    exists armatures, bones. repeat split; try tauto.
    intros [? | ?%list_elem_of_singleton]; [assumption | now subst].
  - rewrite (bool_decide_eq_true_2 _ Hne).
    destruct (decide (boneparent ∈ bones)) as [Hin | Hnin].
    + rewrite (bool_decide_eq_true_2 _ Hin). simpl.
      destruct (IH fuel armatures bones ltac:(simpl in Hfuel; lia) Hroot Hin)
        as [a' [b' [E [Hr' [Hb' Ho]]]]].
      exists a', b'. repeat split; try assumption; try (apply Ho; assumption).
      * intros Hn. apply Hb' in Hn as [? | ?]; [now left | right; now right].
      * intros [? | [-> | ?]%elem_of_cons]; apply Hb'; auto.
    + rewrite (bool_decide_eq_false_2 _ Hnin). simpl.
      destruct (IH fuel (<[skelroot := bones ++ [boneparent]]> armatures)
                   (bones ++ [boneparent]) ltac:(simpl in Hfuel; lia)
                   (lookup_insert_eq _ _ _) ltac:(set_solver))
        as [a' [b' [E [Hr' [Hb' Ho]]]]].
      exists a', b'. repeat split; try assumption.
      * intros Hn. apply Hb' in Hn as [Hn | ?]; [| right; now right].
        apply elem_of_app in Hn as [? | ->%list_elem_of_singleton]; [now left|].
        right. right. inversion Hchain; subst; now left.
      * intros [? | [-> | ?]%elem_of_cons]; apply Hb'; auto;
          left; apply elem_of_app; now left.
      * intros r Hr. rewrite (Ho r Hr). now apply lookup_insert_ne.
Qed.

Lemma complete_bone_tree_fuel (fuel fuel' : nat) (bone skelroot : Node)
    (armatures : Armatures) (r : Py.result Armatures) :
  (fuel <= fuel')%nat ->
  complete_bone_tree sc fuel bone skelroot armatures = Some r ->
  complete_bone_tree sc fuel' bone skelroot armatures = Some r.
Proof.
  revert fuel' bone armatures.
  induction fuel as [|fuel IH]; intros fuel' bone armatures Hle; [discriminate|].
  destruct fuel' as [|fuel']; [lia|]. simpl.
  destruct (armatures !! skelroot) as [bones|]; [|trivial].
  destruct (negb _); [trivial|].
  destruct (parent sc bone) as [boneparent|]; [|trivial].
  destruct (bool_decide (boneparent ≠ skelroot)); [|trivial].
  apply IH. lia.
Qed.

(** C3: when the bone is in the armature's bone list and the parent
    references lead from it up to the armature root, [complete_bone_tree]
    returns after one call for each block of that path, and then every
    block of the path (the root left out) is in the armature's bone
    list; the list has gained nothing else, and the other armatures are
    as before. *)
Theorem complete_bone_tree_marks (bone skelroot : Node) (armatures : Armatures)
    (bones path : list Node) :
  armatures !! skelroot = Some bones ->
  bone ∈ bones ->
  Spec.parent_chain sc skelroot bone path ->
  exists armatures' bones',
    (forall fuel, (length path <= fuel)%nat ->
       complete_bone_tree sc fuel bone skelroot armatures = Some (Py.Ok armatures'))
    /\ armatures' !! skelroot = Some bones'
    /\ (forall n, n ∈ path -> n ∈ bones')
    /\ (forall n, n ∈ bones' <-> n ∈ bones \/ n ∈ path)
    /\ (forall r, r <> skelroot -> armatures' !! r = armatures !! r).
Proof.
  intros Hroot Hbone Hchain.
  destruct (complete_bone_tree_chain skelroot bone path Hchain (length path)
              armatures bones (le_n _) Hroot Hbone)
    as [a' [b' [E [Hr [Hb Ho]]]]].
  exists a', b'. repeat split; try assumption; try (apply Hb; assumption).
  - intros fuel Hle. exact (complete_bone_tree_fuel _ _ _ _ _ _ Hle E).
  - intros n Hn. apply Hb. now right.
Qed.

End BoneTree.

Lemma complete_bone_tree_marks_witness :
  let sc := Armature.MkScene
              (fun n => match n with
                        | 4%positive => Some 3%positive
                        | 3%positive => Some 2%positive
                        | 2%positive => Some 1%positive
                        | _ => None
                        end)
              (fun _ => []) (fun _ _ => Armature.IDENTITY44) in
  exists armatures' bones',
    (forall fuel, (3 <= fuel)%nat ->
       Armature.complete_bone_tree sc fuel 4%positive 1%positive
         {[ 1%positive := [4%positive] ]} = Some (Py.Ok armatures'))
    /\ armatures' !! 1%positive = Some bones'
    /\ (forall n, n ∈ [4%positive; 3%positive; 2%positive] -> n ∈ bones').
Proof.
  intros sc.
  destruct (complete_bone_tree_marks sc 4%positive 1%positive
              {[ 1%positive := [4%positive] ]} [4%positive]
              [4%positive; 3%positive; 2%positive])
    as [a' [b' [E [Hr [Hp _]]]]].
  - apply lookup_singleton_eq.
  - apply list_elem_of_here.
  - apply Spec.chain_up with (boneparent := 3%positive); [reflexivity | discriminate |].
    apply Spec.chain_up with (boneparent := 2%positive); [reflexivity | discriminate |].
    apply Spec.chain_top. reflexivity.
  - exists a', b'. repeat split; assumption.
Defined.

(** ** The correction matrix *)

Section Correction.

Import Armature.

Variable sc : Scene.
Variable props : Props.
Variable armatures : Armatures.

(** C10: [find_correction_matrix] returns the identity whenever the
    realign option is not 2 or the block is not marked as a bone of any
    armature; a matrix other than the identity is returned only with the
    option at 2 and for a marked bone. *)
Theorem find_correction_matrix_identity (n_block : option Node) (n_armature : Node) :
  (import_realign_bones props <> 2%Z
   \/ (forall n, n_block = Some n -> ~ Spec.marked armatures n) ->
   find_correction_matrix sc props armatures n_block n_armature = Py.Ok identity33)
  /\ (forall m,
        find_correction_matrix sc props armatures n_block n_armature = Py.Ok m ->
        m <> identity33 ->
        import_realign_bones props = 2%Z
        /\ exists n, n_block = Some n /\ Spec.marked armatures n).
Proof.
  unfold find_correction_matrix. destruct n_block as [n|].
  - destruct (Z.eqb_spec (import_realign_bones props) 2) as [E2 | N2];
      destruct (is_bone armatures (Some n)) eqn:Eb; cbn [andb].
    + apply is_bone_marked in Eb. split.
      * intros [N | N]; [contradiction | exfalso; now apply (N n)].
      * intros m _ _. split; [assumption | now exists n].
    + split; [reflexivity | intros m [= <-] N; now contradiction N].
    + split; [reflexivity | intros m [= <-] N; now contradiction N].
    + split; [reflexivity | intros m [= <-] N; now contradiction N].
  - split; [reflexivity | intros m [= <-] N; now contradiction N].
Qed.

End Correction.

Lemma find_correction_matrix_identity_witness :
  let sc := Armature.MkScene
              (fun n => match n with
                        | 3%positive => Some 2%positive
                        | 2%positive => Some 1%positive
                        | _ => None
                        end)
              (fun n => match n with 2%positive => [3%positive] | _ => [] end)
              (fun n _ => match n with
                          | 3%positive =>
                              Mat44 (R4 1 0 0 1) (R4 0 1 0 0) (R4 0 0 1 0) (R4 0 0 0 1)
                          | _ => Armature.IDENTITY44
                          end) in
  let armatures : gmap Armature.Node (list Armature.Node) :=
    {[ 1%positive := [2%positive; 3%positive] ]} in
  Armature.find_correction_matrix sc (Armature.MkProps 1 (1#10000) 1) armatures
    (Some 2%positive) 1%positive = Py.Ok identity33
  /\ (Armature.import_realign_bones (Armature.MkProps 2 (1#10000) 1) = 2%Z
      /\ exists n, Some 2%positive = Some n /\ Spec.marked armatures n).
Proof.
  intros sc armatures. split.
  - apply (find_correction_matrix_identity sc (Armature.MkProps 1 (1#10000) 1)
             armatures (Some 2%positive) 1%positive).
    left. discriminate.
  - apply (proj2 (find_correction_matrix_identity sc (Armature.MkProps 2 (1#10000) 1)
                    armatures (Some 2%positive) 1%positive)
             (Mat (Vec 0 (-1) 0) (Vec 1 0 0) (Vec 0 0 1))).
    + vm_compute. reflexivity.
    + discriminate.
Defined.

(** ** Scale, rotation and translation of a matrix *)

Section DecomposeSRT.

Import Armature.

Variable props : Props.
Variable decompose : Matrix44 -> Vector * Quaternion * Vector.
Variable sqrt : Q -> Q.

Lemma pow_half_nonneg x : 0 <= x -> pow_half sqrt x = Py.Ok (sqrt x).
Proof.
  intros H. unfold pow_half.
  destruct (Py.ltb x 0) eqn:E; [apply ltb_lt in E; lra | reflexivity].
Qed.

Lemma pow_half_negative x : x < 0 -> pow_half sqrt x = Py.Raise Py.TypeError.
Proof. intros H. unfold pow_half. apply ltb_lt in H. now rewrite H. Qed.

(** On a matrix whose scale components are not negative, [decompose_srt]
    returns one scalar scale (the root of the first component, with the
    sign of the rotation's determinant), the rotation times that scale
    and the translation; it warns exactly when the scale is not
    uniform. *)
Lemma decompose_srt_warns (matrix : Matrix44) trans_vec rot_quat scale_vec :
  decompose matrix = (trans_vec, rot_quat, scale_vec) ->
  0 <= vx scale_vec -> 0 <= vy scale_vec -> 0 <= vz scale_vec ->
  exists log b_scale,
    decompose_srt props decompose sqrt matrix
    = Py.Ok (log, (b_scale, mat_scale (to_matrix rot_quat) b_scale, trans_vec))
    /\ b_scale = (if Py.ltb (determinant (to_matrix rot_quat)) 0
                  then - sqrt (vx scale_vec) else sqrt (vx scale_vec))
    /\ (Spec.non_uniform props scale_vec ->
        log = ["Corrupt rotation matrix in nif: geometry errors may result."])
    /\ (~ Spec.non_uniform props scale_vec -> log = []).
Proof.
  intros E Hx Hy Hz. unfold decompose_srt. rewrite E.
  rewrite !pow_half_nonneg by assumption. cbn [Py.bind].
  eexists. eexists. split; [reflexivity|]. split.
  - destruct (Py.ltb _ 0); reflexivity.
  - unfold Spec.non_uniform.
    destruct (Py.geb (Qabs (vx scale_vec - vy scale_vec)) (epsilon props)) eqn:E1;
      destruct (Py.geb (Qabs (vy scale_vec - vz scale_vec)) (epsilon props)) eqn:E2;
      cbn [orb]; split; try reflexivity; try (intros N; exfalso; apply N);
      try (left; now apply geb_ge); try (right; now apply geb_ge).
    intros [H | H]; apply geb_ge in H; congruence.
Qed.

(** C9 on a mirrored matrix: when the host decomposes the matrix into a
    negative, non-uniform scale, as it does for the scaling by
    [(-1, -2, -3)], [decompose_srt] raises. *)
Theorem decompose_srt_mirrored (matrix : Matrix44) trans_vec rot_quat :
  decompose matrix = (trans_vec, rot_quat, Vec (-1) (-2) (-3)) ->
  decompose_srt props decompose sqrt matrix = Py.Raise Py.TypeError.
Proof.
  intros E. unfold decompose_srt. rewrite E.
  now rewrite pow_half_negative by reflexivity.
Qed.

End DecomposeSRT.

Lemma decompose_srt_mirrored_witness :
  Armature.decompose_srt (Armature.MkProps 0 (1#10000) 1)
    (fun _ => (Vec 0 0 0, quat_identity, Vec (-1) (-2) (-3))) (fun x => x)
    (Mat44 (R4 (-1) 0 0 0) (R4 0 (-2) 0 0) (R4 0 0 (-3) 0) (R4 0 0 0 1))
  = Py.Raise Py.TypeError.
Proof.
  apply (decompose_srt_mirrored (Armature.MkProps 0 (1#10000) 1)
           (fun _ => (Vec 0 0 0, quat_identity, Vec (-1) (-2) (-3))) (fun x => x)
           _ (Vec 0 0 0) quat_identity).
  reflexivity.
Defined.

(** ** [max] and [index] *)

Section MaxIndex.

Lemma max_fold_ge (xs : list Z) (x : Z) : (x <= Py.max x xs)%Z.
Proof.
  unfold Py.max. revert x. induction xs as [|y xs IH]; intros x; simpl; [lia|].
  specialize (IH (Z.max x y)). lia.
Qed.

Lemma max_ge (xs : list Z) (x y : Z) : y ∈ x :: xs -> (y <= Py.max x xs)%Z.
Proof.
  unfold Py.max. revert x. induction xs as [|z xs IH]; intros x Hy; simpl.
  - apply list_elem_of_singleton in Hy. lia.
  - apply elem_of_cons in Hy as [-> | Hy].
    + pose proof (max_fold_ge xs (Z.max x z)). unfold Py.max in *. lia.
    + apply elem_of_cons in Hy as [-> | Hy].
      * pose proof (max_fold_ge xs (Z.max x z)). unfold Py.max in *. lia.
      * apply IH. now right.
Qed.

Lemma max_in (xs : list Z) (x : Z) : Py.max x xs ∈ x :: xs.
Proof.
  unfold Py.max. revert x. induction xs as [|z xs IH]; intros x; simpl.
  - left.
  - specialize (IH (Z.max x z)). apply elem_of_cons in IH as [E | IH].
    + rewrite E. destruct (Z.max_spec x z) as [[_ ->] | [_ ->]];
        [right; left | left].
    + right. now right.
Qed.

(** [index] returns the first position of the value. *)
Lemma index_first (m : Z) (xs : list Z) (k : nat) :
  Py.index m xs = Some k <->
  xs !! k = Some m /\ forall i y, (i < k)%nat -> xs !! i = Some y -> y <> m.
Proof.
  revert k. induction xs as [|x xs IH]; intros k; simpl.
  - split; [discriminate | intros [H _]; discriminate].
  - destruct (Z.eqb_spec x m) as [-> | N].
    + split.
      * intros [= <-]. split; [reflexivity | intros; lia].
      * intros [Hk Hfirst]. destruct k as [|k]; [reflexivity|].
        exfalso. apply (Hfirst 0%nat m); [lia | reflexivity | reflexivity].
    + destruct k as [|k].
      * split.
        -- destruct (Py.index m xs); discriminate.
        -- intros [[= ->] _]. congruence.
      * split.
        -- destruct (Py.index m xs) as [k'|] eqn:E; [|discriminate].
           intros [= <-]. destruct (proj1 (IH k') eq_refl) as [Hk Hfirst].
           split; [exact Hk|].
           intros [|i] y Hi Hy; [now injection Hy as -> |].
           apply (Hfirst i y); [lia | exact Hy].
        -- intros [Hk Hfirst]. rewrite (proj2 (IH k)); [reflexivity|].
           split; [exact Hk|]. intros i y Hi Hy.
           apply (Hfirst (S i) y); [lia | exact Hy].
Qed.

Lemma index_in (m : Z) (xs : list Z) : m ∈ xs -> exists k, Py.index m xs = Some k.
Proof.
  induction xs as [|x xs IH]; intros H; [inversion H|]. simpl.
  destruct (Z.eqb_spec x m) as [-> | N]; [now exists 0%nat|].
  apply elem_of_cons in H as [-> | H]; [congruence|].
  destruct (IH H) as [k ->]. now exists (S k).
Qed.

(** [xs.index(max(xs))] is the first position of a greatest element. *)
Lemma index_max (x : Z) (xs : list Z) :
  exists k, Py.index (Py.max x xs) (x :: xs) = Some k
    /\ (x :: xs) !! k = Some (Py.max x xs)
    /\ (forall i y, (x :: xs) !! i = Some y -> (y <= Py.max x xs)%Z)
    /\ (forall i y, (i < k)%nat -> (x :: xs) !! i = Some y -> (y < Py.max x xs)%Z).
Proof.
  destruct (index_in _ _ (max_in xs x)) as [k E]. exists k.
  split; [exact E|]. apply index_first in E as [Hk Hfirst].
  split; [exact Hk|]. split.
  - intros i y Hy. apply max_ge. apply list_elem_of_lookup. now exists i.
  - intros i y Hi Hy.
    assert (y <= Py.max x xs)%Z by (apply max_ge, list_elem_of_lookup; now exists i).
    specialize (Hfirst i y Hi Hy). lia.
Qed.

End MaxIndex.

(** ** The choice of the correction matrix *)

Section SelectCorrection.

Import Armature.

Lemma int_upper q : q < inject_Z (Py.int q) + 1.
Proof.
  destruct (Qlt_le_dec q 0) as [H | H].
  - rewrite int_nonpos by lra. pose proof (Qle_ceiling q). lra.
  - rewrite int_nonneg by assumption. pose proof (Qlt_floor q) as L.
    rewrite inject_Z_plus in L. exact L.
Qed.

Lemma int_lower q : 1 <= inject_Z (Py.int q) -> inject_Z (Py.int q) <= q.
Proof.
  intros H. destruct (Qlt_le_dec q 0) as [N | N].
  - exfalso. rewrite int_nonpos in H by lra.
    assert (Qceiling q <= 0)%Z.
    { change 0%Z with (Qceiling 0). apply Qceiling_resp_le. lra. }
    assert (inject_Z (Qceiling q) <= inject_Z 0) by (now rewrite <- Zle_Qle).
    change (inject_Z 0) with 0 in *. lra.
  - rewrite int_nonneg by assumption. apply Qfloor_le.
Qed.

Lemma int_ge_1 q : 1 <= q -> 1 <= inject_Z (Py.int q).
Proof.
  intros H. rewrite int_nonneg by lra.
  change 1 with (inject_Z 1). rewrite <- Zle_Qle.
  change 1%Z with (Qfloor 1). now apply Qfloor_resp_le.
Qed.

Lemma ratio_ge (r d : Q) : 0 < d -> d <= 4 * r -> Py.ltb (r / d) (1#4) = false.
Proof.
  intros Hd H. apply ltb_ge. apply Qle_shift_div_l; [assumption | lra].
Qed.

Lemma argmax_greatest (a0 a1 a2 a3 a4 a5 : Q) :
  exists vj, [a0; a1; a2; a3; a4; a5] !! Spec.argmax [a0; a1; a2; a3; a4; a5] = Some vj
    /\ a0 <= vj /\ a1 <= vj /\ a2 <= vj /\ a3 <= vj /\ a4 <= vj /\ a5 <= vj.
Proof.
  unfold Spec.argmax, Spec.argmax_from.
  repeat match goal with
         | |- context [Py.ltb ?a ?b] =>
             let E := fresh "E" in
             destruct (Py.ltb a b) eqn:E; [apply ltb_lt in E | apply ltb_ge in E]
         end;
    (eexists; split; [reflexivity | repeat split; lra]).
Qed.

Lemma abs_cases v : (0 <= v /\ Qabs v == v) \/ (v <= 0 /\ Qabs v == - v).
Proof.
  destruct (Qlt_le_dec v 0); [right | left]; split; try lra.
  - apply Qabs_neg. lra.
  - now apply Qabs_pos.
Qed.

Ltac spec_or_clear H := first [specialize (H ltac:(lra)) | clear H].

(** [correction_of_sums] never raises. *)
Lemma correction_of_sums_total (x y z : Q) :
  exists m, correction_of_sums x y z = Py.Ok m.
Proof.
  unfold correction_of_sums. cbn [map].
  destruct (index_max (Py.int (x * 200))
              [Py.int (y * 200); Py.int (z * 200); Py.int (- x * 200);
               Py.int (- y * 200); Py.int (- z * 200)]) as [k [Ek [Hk _]]].
  rewrite Ek.
  destruct k as [|[|[|[|[|[|k]]]]]]; [| | | | | | discriminate Hk];
    destruct (Py.ltb _ (1#4)); eexists; reflexivity.
Qed.

(** When a component is at least 1/200 in absolute value, the code
    chooses as the specification's [select_correction] does. *)
Lemma correction_of_sums_select (x y z : Q) :
  (1#200) <= Qabs x \/ (1#200) <= Qabs y \/ (1#200) <= Qabs z ->
  correction_of_sums x y z = Py.Ok (Spec.select_correction x y z).
Proof.
  intros Hbig.
  unfold correction_of_sums, Spec.select_correction. cbn [map].
  destruct (index_max (Py.int (x * 200))
              [Py.int (y * 200); Py.int (z * 200); Py.int (- x * 200);
               Py.int (- y * 200); Py.int (- z * 200)]) as [k [Ek [Hk [Hm _]]]].
  rewrite Ek. clear Ek.
  remember (Py.max _ _) as M eqn:HeqM. clear HeqM.
  pose proof (Hm 0%nat _ eq_refl) as M0. pose proof (Hm 1%nat _ eq_refl) as M1.
  pose proof (Hm 2%nat _ eq_refl) as M2. pose proof (Hm 3%nat _ eq_refl) as M3.
  pose proof (Hm 4%nat _ eq_refl) as M4. pose proof (Hm 5%nat _ eq_refl) as M5.
  clear Hm. rewrite Zle_Qle in M0, M1, M2, M3, M4, M5.
  destruct (argmax_greatest (x * 200) (y * 200) (z * 200)
              (- x * 200) (- y * 200) (- z * 200))
    as [vj [Ej [J0 [J1 [J2 [J3 [J4 J5]]]]]]].
  remember (Spec.argmax _) as j eqn:Heqj. clear Heqj.
  pose proof (int_upper (x * 200)) as U0. pose proof (int_upper (y * 200)) as U1.
  pose proof (int_upper (z * 200)) as U2. pose proof (int_upper (- x * 200)) as U3.
  pose proof (int_upper (- y * 200)) as U4. pose proof (int_upper (- z * 200)) as U5.
  pose proof (int_lower (x * 200)) as L0. pose proof (int_lower (y * 200)) as L1.
  pose proof (int_lower (z * 200)) as L2. pose proof (int_lower (- x * 200)) as L3.
  pose proof (int_lower (- y * 200)) as L4. pose proof (int_lower (- z * 200)) as L5.
  pose proof (int_ge_1 (x * 200)) as G0. pose proof (int_ge_1 (y * 200)) as G1.
  pose proof (int_ge_1 (z * 200)) as G2. pose proof (int_ge_1 (- x * 200)) as G3.
  pose proof (int_ge_1 (- y * 200)) as G4. pose proof (int_ge_1 (- z * 200)) as G5.
  destruct (abs_cases x) as [[Sx Ax] | [Sx Ax]];
  destruct (abs_cases y) as [[Sy Ay] | [Sy Ay]];
  destruct (abs_cases z) as [[Sz Az] | [Sz Az]];
  (destruct Hbig as [Hb | [Hb | Hb]]);
  spec_or_clear G0; spec_or_clear G1; spec_or_clear G2;
  spec_or_clear G3; spec_or_clear G4; spec_or_clear G5;
  (destruct k as [|[|[|[|[|[|k]]]]]]; [| | | | | | discriminate Hk]);
  injection Hk as <-;
  spec_or_clear L0; spec_or_clear L1; spec_or_clear L2;
  spec_or_clear L3; spec_or_clear L4; spec_or_clear L5;
  (destruct j as [|[|[|[|[|[|j]]]]]]; [| | | | | | discriminate Ej]);
  injection Ej as <-;
  cbn [Nat.eqb orb andb];
  try (replace (Py.ltb 0 (Qabs x)) with true by (symmetry; apply ltb_lt; lra));
  try (replace (Py.ltb 0 (Qabs y)) with true by (symmetry; apply ltb_lt; lra));
  try (replace (Py.ltb 0 (Qabs z)) with true by (symmetry; apply ltb_lt; lra));
  cbv iota;
  first [ destruct (Py.ltb _ (1#4)); reflexivity
        | exfalso; lra
        | rewrite !ratio_ge by lra; reflexivity ].
Qed.

(** C2, as the code has it: for every accumulated offset with a
    component of absolute value 1/200 or more, the selector returns what
    [select_correction] describes: the index of the greatest of the six
    signed candidates scaled by 200, the alignment offset (the two other
    absolute components over the dominant one) and the matrix of that
    axis exactly when the offset is below 0.25, the identity otherwise.
    Offsets 0.24999 and 0.25001 are on different sides, 0.25 gives the
    identity. *)
Theorem correction_of_sums_spec (x y z : Q) :
  (1#200) <= Qabs x \/ (1#200) <= Qabs y \/ (1#200) <= Qabs z ->
  correction_of_sums x y z = Py.Ok (Spec.select_correction x y z)
  /\ correction_of_sums 1 (24999#100000) 0
     = Py.Ok (Mat (Vec 0 (-1) 0) (Vec 1 0 0) (Vec 0 0 1))
  /\ correction_of_sums 1 (25001#100000) 0 = Py.Ok identity33
  /\ correction_of_sums 1 (25#100) 0 = Py.Ok identity33.
Proof.
  intros H. split; [now apply correction_of_sums_select|].
  repeat split; reflexivity.
Qed.

End SelectCorrection.

Lemma correction_of_sums_spec_witness :
  Armature.correction_of_sums 0 0 (-3)
  = Py.Ok (Mat (Vec 1 0 0) (Vec 0 0 (-1)) (Vec 0 1 0)).
Proof.
  rewrite (proj1 (correction_of_sums_spec 0 0 (-3)
                    ltac:(right; right; unfold Qle; simpl; lia))).
  reflexivity.
Defined.

(** C2, as stated, fails on a short offset: for [(0, 0, 0.004)] every
    candidate scaled by 200 truncates to 0, the first index is taken and
    the +X matrix is returned, where the dominant axis is +Z. *)
Lemma correction_of_sums_short_offset :
  Armature.correction_of_sums 0 0 (1#250)
  = Py.Ok (Mat (Vec 0 (-1) 0) (Vec 1 0 0) (Vec 0 0 1))
  /\ Spec.select_correction 0 0 (1#250) = Mat (Vec 1 0 0) (Vec 0 0 1) (Vec 0 (-1) 0)
  /\ Armature.correction_of_sums 0 0 (1#250)
     <> Py.Ok (Spec.select_correction 0 0 (1#250)).
Proof. repeat split; try reflexivity. discriminate. Qed.

(** ** Head and tail of a bone *)

Section HeadTail.

Import Armature.

Variable sc : Scene.
Variable props : Props.
Variable armatures : Armatures.
Variable normalize : Vector -> Vector.

Lemma find_correction_matrix_total (n_block : option Node) (n_armature : Node) :
  exists m, find_correction_matrix sc props armatures n_block n_armature = Py.Ok m.
Proof.
  unfold find_correction_matrix. destruct n_block as [n|]; [| now eexists].
  destruct (_ && _); [| now eexists].
  destruct (offset_sums sc armatures n n_armature) as [[x y] z].
  apply correction_of_sums_total.
Qed.

Lemma no_offset_near (dx dy dz : Q) :
  (Qabs dx + Qabs dy + Qabs dz) * 200 < epsilon props ->
  no_offset props dx dy dz = true.
Proof.
  intros H. unfold no_offset. apply ltb_lt.
  pose proof (Qabs_triangle (dx + dy) dz). pose proof (Qabs_triangle dx dy). lra.
Qed.

Lemma child_positions_nil (n n_armature : Node) :
  Spec.child_positions sc armatures n n_armature = [] <-> child_bones sc armatures n = [].
Proof.
  unfold Spec.child_positions. destruct (child_bones sc armatures n); simpl;
    split; (reflexivity || discriminate).
Qed.

Lemma no_offset_sum (u v : Vector) :
  no_offset props (vx u - vx v) (vy u - vy v) (vz u - vz v) = true
  <-> Spec.signed_sum_small props u v.
Proof. unfold no_offset, Spec.signed_sum_small. apply ltb_lt. Qed.

Lemma tail_of_children_spec (n_block n_armature : Node) :
  let h := Spec.head_position sc n_block n_armature in
  let cs := Spec.child_positions sc armatures n_block n_armature in
  exists t zl,
    tail_of_children sc props armatures n_block n_armature = Py.Ok (t, zl)
    /\ (cs = [] -> t = h /\ zl = true)
    /\ (cs <> [] -> t = Spec.average cs
                   /\ (zl = true <-> Spec.signed_sum_small props h t)
                   /\ (Spec.distance h t * 200 < epsilon props -> zl = true)).
Proof.
  intros h cs. unfold tail_of_children.
  destruct (0 <? length (child_bones sc armatures n_block))%nat eqn:E.
  - destruct (find_correction_matrix_total (Some n_block) n_armature) as [m ->].
    cbn [Py.bind]. eexists. eexists. split; [reflexivity|].
    apply Nat.ltb_lt in E. split.
    + intros Hc. apply child_positions_nil in Hc. rewrite Hc in E. simpl in E. lia.
    + intros _.
      assert (Ht : Vec (Py.sum (map (fun cm => c3 (m0 cm))
                          (map (fun child => import_matrix sc child (Some n_armature))
                               (child_bones sc armatures n_block)))
                        / inject_Z (Z.of_nat (length
                            (map (fun child => import_matrix sc child (Some n_armature))
                                 (child_bones sc armatures n_block)))))
                       (Py.sum (map (fun cm => c3 (m1 cm))
                          (map (fun child => import_matrix sc child (Some n_armature))
                               (child_bones sc armatures n_block)))
                        / inject_Z (Z.of_nat (length
                            (map (fun child => import_matrix sc child (Some n_armature))
                                 (child_bones sc armatures n_block)))))
                       (Py.sum (map (fun cm => c3 (m2 cm))
                          (map (fun child => import_matrix sc child (Some n_armature))
                               (child_bones sc armatures n_block)))
                        / inject_Z (Z.of_nat (length
                            (map (fun child => import_matrix sc child (Some n_armature))
                                 (child_bones sc armatures n_block)))))
                   = Spec.average cs).
      { unfold Spec.average, cs, Spec.child_positions.
        rewrite !length_map, !map_map. reflexivity. }
      split; [exact Ht|]. split.
      * apply (no_offset_sum h (Vec _ _ _)).
      * intros Hd. apply no_offset_near. exact Hd.
  - apply Nat.ltb_ge in E.
    assert (Hnil : child_bones sc armatures n_block = []).
    { destruct (child_bones sc armatures n_block); [reflexivity | simpl in E; lia]. }
    assert (Hcs : cs = []) by (now apply child_positions_nil).
    destruct (import_realign_bones props =? 2)%Z.
    + destruct (find_correction_matrix_total (parent sc n_block) n_armature) as [m ->].
      cbn [Py.bind]. eexists. eexists. split; [reflexivity|].
      split; [intros _; split; reflexivity | intros N; contradiction].
    + eexists. eexists. split; [reflexivity|].
      split; [intros _; split; reflexivity | intros N; contradiction].
Qed.

Lemma nub_tail_nominal (edit_bones : gmap Node EditBone) (n_block : Node) (h t : Vector) :
  import_realign_bones props = 2%Z \/ ~ (exists p, parent sc n_block = Some p
                                                  /\ Spec.marked armatures p) ->
  nub_tail sc props armatures normalize edit_bones n_block h t
  = Py.Ok (Vec (vx h + 5 * scale_correction_import props) (vy t) (vz t)).
Proof.
  intros H. unfold nub_tail. destruct h as [hx hy hz], t as [tx ty tz].
  assert ((import_realign_bones props =? 2)%Z
          || negb (is_bone armatures (parent sc n_block)) = true) as ->;
    [| reflexivity].
  destruct H as [-> | N]; [reflexivity|].
  apply orb_true_iff. right. apply negb_true_iff.
  destruct (parent sc n_block) as [p|] eqn:Ep; [| reflexivity].
  destruct (is_bone armatures (Some p)) eqn:Eb; [| reflexivity].
  exfalso. apply N. exists p. split; [reflexivity | now apply is_bone_marked].
Qed.

Lemma nub_tail_parent (edit_bones : gmap Node EditBone) (n_block p : Node)
    (pb : EditBone) (h t : Vector) :
  import_realign_bones props <> 2%Z ->
  parent sc n_block = Some p -> Spec.marked armatures p ->
  edit_bones !! p = Some pb ->
  exists dir,
    nub_tail sc props armatures normalize edit_bones n_block h t
    = Py.Ok (Vec (vx h + vx (normalize dir) * 5 * scale_correction_import props)
                 (vy h + vy (normalize dir) * 5 * scale_correction_import props)
                 (vz h + vz (normalize dir) * 5 * scale_correction_import props))
    /\ (Spec.signed_sum_small props h (tail pb) -> dir = vec_sub (tail pb) (head pb))
    /\ (~ Spec.signed_sum_small props h (tail pb) -> dir = vec_sub h (tail pb)).
Proof.
  intros N2 Ep Hm Hpb. unfold nub_tail.
  pose proof (no_offset_sum h (tail pb)) as Hsum.
  destruct h as [hx hy hz], t as [tx ty tz].
  apply Z.eqb_neq in N2. rewrite N2, Ep.
  rewrite (proj2 (is_bone_marked armatures p) Hm). cbn [orb negb mbind option_bind].
  rewrite Hpb. cbn [vx vy vz] in *.
  destruct (no_offset props (hx - vx (tail pb)) (hy - vy (tail pb)) (hz - vz (tail pb)))
    eqn:E.
  - eexists. split; [reflexivity|]. split; [intros _; reflexivity|].
    intros N. exfalso. apply N. now apply Hsum.
  - eexists. split; [reflexivity|]. split; [| intros _; reflexivity].
    intros Hs. apply Hsum in Hs. congruence.
Qed.

End HeadTail.

(** C6 on the code.  The head of a bone is its own armature-space
    position.  Without bone children the bone is of zero length; with
    bone children the tail is their average, and the bone is of zero
    length exactly when the absolute value of the sum of the component
    differences between head and average, times 200, is below epsilon:
    a signed sum, which a head and an average that are apart can pass.
    A bone of zero length is given a nub: if the realign option is 2 or
    the parent is not a bone, the X component of the tail becomes that
    of the head plus 5.0 times the scale correction, the other two stay
    those of the average; else the tail is the head plus 5.0 times the
    scale correction along the normalised offset of the head from the
    parent's tail, or along the parent's own direction exactly when that
    offset passes the same test.  A bone at (0,0,0) with bone children
    at (1,0,0) and (3,0,0) gets the tail (2,0,0) and no nub; a bone at
    (0,0,0) with one bone child at (1,-1,0), which is not at the head,
    counts as of zero length and gets the tail (5,-1,0). *)
Theorem import_bone_head_tail (sc : Armature.Scene) (props : Armature.Props)
    (armatures : gmap Armature.Node (list Armature.Node))
    (normalize : Vector -> Vector) (edit_bones : gmap Armature.Node Armature.EditBone)
    (n_block n_armature : Armature.Node) :
  Spec.marked armatures n_block ->
  let h := Spec.head_position sc n_block n_armature in
  let cs := Spec.child_positions sc armatures n_block n_armature in
  let nub := Armature.nub_tail sc props armatures normalize edit_bones n_block h in
  (exists t zl,
      Armature.tail_of_children sc props armatures n_block n_armature = Py.Ok (t, zl)
      /\ (cs = [] -> t = h /\ zl = true)
      /\ (cs <> [] -> t = Spec.average cs
                     /\ (zl = true <-> Spec.signed_sum_small props h t)
                     /\ (Spec.distance h t * 200 < Armature.epsilon props -> zl = true))
      /\ Armature.bone_head_tail sc props armatures normalize edit_bones n_block n_armature
         = (if zl
            then tail <- nub t ;;; Py.Ok (Some (Armature.MkEditBone h tail))
            else Py.Ok (Some (Armature.MkEditBone h t)))
      /\ (Armature.import_realign_bones props = 2%Z
          \/ ~ (exists p, Armature.parent sc n_block = Some p /\ Spec.marked armatures p) ->
          nub t = Py.Ok (Vec (vx h + 5 * Armature.scale_correction_import props)
                             (vy t) (vz t)))
      /\ (Armature.import_realign_bones props <> 2%Z ->
          forall p pb, Armature.parent sc n_block = Some p -> Spec.marked armatures p ->
            edit_bones !! p = Some pb ->
            exists dir,
              nub t = Py.Ok (Vec (vx h + vx (normalize dir) * 5
                                         * Armature.scale_correction_import props)
                                 (vy h + vy (normalize dir) * 5
                                         * Armature.scale_correction_import props)
                                 (vz h + vz (normalize dir) * 5
                                         * Armature.scale_correction_import props))
              /\ (Spec.signed_sum_small props h (Armature.tail pb) ->
                  dir = vec_sub (Armature.tail pb) (Armature.head pb))
              /\ (~ Spec.signed_sum_small props h (Armature.tail pb) ->
                  dir = vec_sub h (Armature.tail pb))))
  /\ (let at_ x y z := Mat44 (R4 1 0 0 x) (R4 0 1 0 y) (R4 0 0 1 z) (R4 0 0 0 1) in
      let parents := fun n : Armature.Node =>
                       match n with
                       | 2%positive => Some 1%positive
                       | 3%positive | 4%positive => Some 2%positive
                       | _ => None
                       end in
      let two := Armature.MkScene parents
                   (fun n => match n with
                             | 1%positive => [2%positive]
                             | 2%positive => [3%positive; 4%positive]
                             | _ => []
                             end)
                   (fun n _ => match n with
                               | 3%positive => at_ 1 0 0
                               | 4%positive => at_ 3 0 0
                               | _ => at_ 0 0 0
                               end) in
      let one := Armature.MkScene parents
                   (fun n => match n with
                             | 1%positive => [2%positive]
                             | 2%positive => [3%positive]
                             | _ => []
                             end)
                   (fun n _ => match n with
                               | 3%positive => at_ 1 (-1) 0
                               | _ => at_ 0 0 0
                               end) in
      let config := Armature.MkProps 0 (1#10000) 1 in
      (exists t,
          Armature.bone_head_tail two config
            {[ 1%positive := [2%positive; 3%positive; 4%positive] ]} normalize ∅
            2%positive 1%positive
          = Py.Ok (Some (Armature.MkEditBone (Vec 0 0 0) t))
          /\ vec_eq t (Vec 2 0 0))
      /\ (Spec.child_positions one {[ 1%positive := [2%positive; 3%positive] ]}
            2%positive 1%positive = [Vec 1 (-1) 0]
          /\ Spec.distance (Vec 0 0 0) (Vec 1 (-1) 0) == 2
          /\ exists t,
              Armature.bone_head_tail one config
                {[ 1%positive := [2%positive; 3%positive] ]} normalize ∅
                2%positive 1%positive
              = Py.Ok (Some (Armature.MkEditBone (Vec 0 0 0) t))
              /\ vec_eq t (Vec 5 (-1) 0))).
Proof.
  intros Hm h cs nub. split.
  - destruct (tail_of_children_spec sc props armatures n_block n_armature)
      as [t [zl [E [Hnil Hcs]]]].
    exists t, zl. split; [exact E|]. split; [exact Hnil|]. split; [exact Hcs|].
    split; [| split].
    + unfold Armature.bone_head_tail.
      rewrite (proj2 (is_bone_marked armatures n_block) Hm). cbn [negb].
      rewrite E. cbn [Py.bind]. destruct zl; reflexivity.
    + apply nub_tail_nominal.
    + intros N2 p pb. now apply nub_tail_parent.
  - split.
    + eexists. split; [vm_compute; reflexivity|]. repeat split; reflexivity.
    + split; [vm_compute; reflexivity|]. split; [reflexivity|].
      eexists. split; [vm_compute; reflexivity|]. repeat split; reflexivity.
Qed.

Lemma import_bone_head_tail_witness :
  let at_ x y z := Mat44 (R4 1 0 0 x) (R4 0 1 0 y) (R4 0 0 1 z) (R4 0 0 0 1) in
  let scene := Armature.MkScene
                 (fun n => match n with
                           | 2%positive => Some 1%positive
                           | 3%positive | 4%positive => Some 2%positive
                           | _ => None
                           end)
                 (fun n => match n with
                           | 1%positive => [2%positive]
                           | 2%positive => [3%positive; 4%positive]
                           | _ => []
                           end)
                 (fun n _ => match n with
                             | 3%positive => at_ 1 0 0
                             | 4%positive => at_ 3 0 0
                             | _ => at_ 0 0 0
                             end) in
  let armatures : gmap Armature.Node (list Armature.Node) :=
    {[ 1%positive := [2%positive; 3%positive; 4%positive] ]} in
  Spec.marked armatures 3%positive
  /\ exists t zl,
      Armature.tail_of_children scene (Armature.MkProps 0 (1#10000) 1) armatures
        3%positive 1%positive = Py.Ok (t, zl)
      /\ t = Vec 1 0 0 /\ zl = true.
Proof.
  intros at_ scene armatures.
  assert (Hm : Spec.marked armatures 3%positive).
  { exists 1%positive, [2%positive; 3%positive; 4%positive].
    split; [apply lookup_singleton_eq | set_solver]. }
  split; [exact Hm|].
  destruct (proj1 (import_bone_head_tail scene (Armature.MkProps 0 (1#10000) 1) armatures
                     (fun v => v) ∅ 3%positive 1%positive Hm))
    as [t [zl [E [Hnil _]]]].
  exists t, zl. split; [exact E|]. apply Hnil. reflexivity.
Defined.

(** * Further properties *)

(** ** Extend modes and frames *)

Section ExtendAndFrames.

Import Animation Curves.

Lemma land_6_bits (flags : Z) :
  Z.land flags 6
  = ((if Z.testbit flags 1 then 2 else 0) + (if Z.testbit flags 2 then 4 else 0))%Z.
Proof.
  apply Z.bits_inj'. intros n Hn. rewrite Z.land_spec.
  destruct (Z.eq_dec n 0%Z) as [-> | N0].
  { rewrite andb_false_r. destruct (Z.testbit flags 1), (Z.testbit flags 2); reflexivity. }
  destruct (Z.eq_dec n 1%Z) as [-> | N1].
  { rewrite andb_true_r. destruct (Z.testbit flags 1), (Z.testbit flags 2); reflexivity. }
  destruct (Z.eq_dec n 2%Z) as [-> | N2].
  { rewrite andb_true_r. destruct (Z.testbit flags 1), (Z.testbit flags 2); reflexivity. }
  assert (H6 : Z.testbit 6 n = false).
  { apply Z.bits_above_log2; [lia | simpl; lia]. }
  rewrite H6, andb_false_r. symmetry.
  destruct (Z.testbit flags 1), (Z.testbit flags 2); simpl;
    try (apply Z.bits_above_log2; [lia | simpl; lia]); apply Z.bits_0.
Qed.

(** The extend mode is read off bits 1 and 2 of the flags alone: cyclic
    exactly when both are clear, constant otherwise; the warning is
    logged exactly when bit 1 is set. *)
Theorem get_extend_from_flags_bits (flags : Z) :
  (snd (get_extend_from_flags flags) = "CYCLIC"
   <-> Z.testbit flags 1 = false /\ Z.testbit flags 2 = false)
  /\ (snd (get_extend_from_flags flags) = "CONST"
      <-> Z.testbit flags 1 = true \/ Z.testbit flags 2 = true)
  /\ (fst (get_extend_from_flags flags) <> [] <-> Z.testbit flags 1 = true)
  /\ get_extend_from_flags (Z.land flags 6) = get_extend_from_flags flags.
Proof.
  unfold get_extend_from_flags.
  replace (Z.land (Z.land flags 6) 6) with (Z.land flags 6)
    by (rewrite <- Z.land_assoc; reflexivity).
  rewrite land_6_bits.
  destruct (Z.testbit flags 1), (Z.testbit flags 2); simpl;
    repeat split; intros; try tauto; try discriminate; try congruence;
    try (destruct H; discriminate); auto.
Qed.

Lemma int_mono (x y : Q) : x <= y -> (Py.int x <= Py.int y)%Z.
Proof.
  intros H. destruct (Qlt_le_dec x 0) as [Hx | Hx], (Qlt_le_dec y 0) as [Hy | Hy].
  - rewrite !int_nonpos by lra. now apply Qceiling_resp_le.
  - rewrite int_nonpos, int_nonneg by lra.
    assert (Qceiling x <= 0)%Z
      by (change 0%Z with (Qceiling 0); apply Qceiling_resp_le; lra).
    assert (0 <= Qfloor y)%Z
      by (change 0%Z with (Qfloor 0); apply Qfloor_resp_le; lra).
    lia.
  - lra.
  - rewrite !int_nonneg by lra. now apply Qfloor_resp_le.
Qed.

(** At a frame rate that is not negative a later key is never put at an
    earlier frame, and no key at a time that is not negative is put
    before frame 1. *)
Theorem frame_of_time_monotone (fps t1 t2 : Q) :
  0 <= fps -> t1 <= t2 ->
  (frame_of_time fps t1 <= frame_of_time fps t2)%Z
  /\ (0 <= t1 -> (1 <= frame_of_time fps t1)%Z).
Proof.
  intros Hf Ht. unfold frame_of_time. split.
  - assert (Py.int (t1 * fps + (1#2)) <= Py.int (t2 * fps + (1#2)))%Z; [| lia].
    apply int_mono. nra.
  - intros H1. assert (H : (Py.int 0%Q <= Py.int (t1 * fps + (1#2)))%Z).
    { apply int_mono. nra. }
    change (Py.int 0%Q) with 0%Z in H. lia.
Qed.

End ExtendAndFrames.

Lemma frame_of_time_monotone_witness :
  (Animation.frame_of_time 30 (1#10) <= Animation.frame_of_time 30 (1#5))%Z
  /\ (0 <= 1#10 -> (1 <= Animation.frame_of_time 30 (1#10))%Z).
Proof.
  apply (frame_of_time_monotone 30 (1#10) (1#5)); unfold Qle; simpl; lia.
Defined.

(** ** The bone tree, further *)

Section BoneTreeMore.

Import Armature Skeleton.

Variable sc : Scene.

Lemma parent_chain_parent (skelroot bone : Node) (path : list Node) :
  Spec.parent_chain sc skelroot bone path ->
  bone ∈ path
  /\ forall n, n ∈ path -> exists p, parent sc n = Some p /\ (p = skelroot \/ p ∈ path).
Proof.
  induction 1 as [bone Hp | bone boneparent path Hp Hne Hchain [Hin IH]].
  - split; [left|]. intros n ->%list_elem_of_singleton. exists skelroot. auto.
  - split; [left|]. intros n [-> | Hn]%elem_of_cons.
    + exists boneparent. split; [assumption|]. right. now right.
    + destruct (IH n Hn) as [p [E [Hs | Hp']]]; exists p; split; auto.
      right. now right.
Qed.

(** A second pass changes nothing: with every block of the path marked
    the armatures come back as they are. *)
Lemma complete_bone_tree_same (skelroot bone : Node) (path : list Node) :
  Spec.parent_chain sc skelroot bone path ->
  forall (fuel : nat) (armatures : gmap Node (list Node)) (bones : list Node),
    (length path <= fuel)%nat ->
    armatures !! skelroot = Some bones ->
    (forall n, n ∈ path -> n ∈ bones) ->
    complete_bone_tree sc fuel bone skelroot armatures = Some (Py.Ok armatures).
Proof.
  induction 1 as [bone Hp | bone boneparent path Hp Hne Hchain IH];
    intros fuel armatures bones Hfuel Hroot Hall;
    (destruct fuel as [|fuel]; [simpl in Hfuel; lia|]);
    simpl; rewrite Hroot;
    rewrite (bool_decide_eq_true_2 _ (Hall bone (list_elem_of_here _ _))), Hp; simpl.
  - now rewrite bool_decide_eq_false_2 by (intros N; now apply N).
  - rewrite (bool_decide_eq_true_2 _ Hne).
    assert (Hin : boneparent ∈ bones).
    { apply Hall. right. apply (parent_chain_parent _ _ _ Hchain). }
    rewrite (bool_decide_eq_true_2 _ Hin). simpl.
    apply (IH fuel armatures bones); [simpl in Hfuel; lia | assumption |].
    intros n Hn. apply Hall. now right.
Qed.

(** Only new blocks are appended: a list without duplicates stays
    without duplicates, and the old list is a prefix of the new one. *)
Lemma complete_bone_tree_appends (skelroot bone : Node) (path : list Node) :
  Spec.parent_chain sc skelroot bone path ->
  forall (fuel : nat) (armatures armatures' : gmap Node (list Node)) (bones : list Node),
    armatures !! skelroot = Some bones ->
    complete_bone_tree sc fuel bone skelroot armatures = Some (Py.Ok armatures') ->
    exists added, armatures' !! skelroot = Some (bones ++ added)
                  /\ (NoDup bones -> NoDup (bones ++ added)).
Proof.
  induction 1 as [bone Hp | bone boneparent path Hp Hne Hchain IH];
    intros fuel armatures armatures' bones Hroot;
    (destruct fuel as [|fuel]; [discriminate|]);
    simpl; rewrite Hroot; destruct (bool_decide (bone ∈ bones)); simpl;
    try discriminate; rewrite Hp.
  - rewrite bool_decide_eq_false_2 by (intros N; now apply N).
    intros [= <-]. exists []. rewrite app_nil_r. auto.
  - rewrite (bool_decide_eq_true_2 _ Hne).
    destruct (decide (boneparent ∈ bones)) as [Hin | Hnin].
    + rewrite (bool_decide_eq_true_2 _ Hin). simpl. now apply IH.
    + rewrite (bool_decide_eq_false_2 _ Hnin). simpl. intros E.
      destruct (IH fuel _ _ (bones ++ [boneparent]) (lookup_insert_eq _ _ _) E)
        as [added [Hr Hnd]].
      exists (boneparent :: added). rewrite <- app_assoc in Hr, Hnd.
      split; [exact Hr|]. intros Hb. apply Hnd.
      apply NoDup_app. split; [assumption|]. split.
      * intros x Hx ->%list_elem_of_singleton. contradiction.
      * apply NoDup_singleton.
Qed.

(** [complete_bone_tree] only appends blocks that are not yet listed (a
    list without duplicates stays so, the old list is a prefix of the new
    one), and a second call on its result changes nothing. *)
Theorem complete_bone_tree_once (bone skelroot : Node)
    (armatures armatures' : gmap Node (list Node)) (bones path : list Node) (fuel : nat) :
  armatures !! skelroot = Some bones ->
  bone ∈ bones ->
  Spec.parent_chain sc skelroot bone path ->
  (length path <= fuel)%nat ->
  complete_bone_tree sc fuel bone skelroot armatures = Some (Py.Ok armatures') ->
  complete_bone_tree sc fuel bone skelroot armatures' = Some (Py.Ok armatures')
  /\ exists added, armatures' !! skelroot = Some (bones ++ added)
                   /\ (NoDup bones -> NoDup (bones ++ added)).
Proof.
  intros Hroot Hbone Hchain Hfuel E. split.
  - destruct (complete_bone_tree_chain sc skelroot bone path Hchain fuel armatures bones
                Hfuel Hroot Hbone) as [a' [b' [E' [Hr [Hb _]]]]].
    rewrite E in E'. injection E' as <-.
    apply (complete_bone_tree_same skelroot bone path Hchain fuel armatures' b');
      [assumption | assumption |].
    intros n Hn. apply Hb. now right.
  - exact (complete_bone_tree_appends skelroot bone path Hchain fuel _ _ bones Hroot E).
Qed.

(** When the parent references of a marked bone end at the top without
    passing the armature root, [complete_bone_tree] does not loop and
    marks nothing for good: it fails on the missing parent with
    [AttributeError]. *)
Theorem complete_bone_tree_fails (bone skelroot : Node)
    (armatures : gmap Node (list Node)) (fuel : nat) (l bones : list Node) :
  Notions.ancestry sc bone l -> skelroot ∉ l ->
  armatures !! skelroot = Some bones -> bone ∈ bones ->
  (length l < fuel)%nat ->
  complete_bone_tree sc fuel bone skelroot armatures = Some (Py.Raise Py.AttributeError).
Proof.
  intros Hanc. revert fuel armatures bones.
  induction Hanc as [n Hp | n p l Hp Hanc IH];
    intros fuel armatures bones Hnot Hroot Hbone Hfuel;
    (destruct fuel as [|fuel]; [simpl in Hfuel; lia|]);
    simpl; rewrite Hroot, (bool_decide_eq_true_2 _ Hbone), Hp; simpl;
    [reflexivity|].
  assert (Hne : p ≠ skelroot) by (intros ->; apply Hnot; left).
  assert (Hnot' : skelroot ∉ l) by (intros H; apply Hnot; now right).
  rewrite (bool_decide_eq_true_2 _ Hne).
  destruct (decide (p ∈ bones)) as [Hin | Hnin].
  - rewrite (bool_decide_eq_true_2 _ Hin). simpl.
    apply (IH fuel armatures bones); [assumption .. | simpl in Hfuel; lia].
  - rewrite (bool_decide_eq_false_2 _ Hnin). simpl.
    apply (IH fuel _ (bones ++ [p])); [assumption | apply lookup_insert_eq | |].
    + apply elem_of_app. right. left.
    + simpl in Hfuel. lia.
Qed.

Lemma mark_skin_bone_complete (skelroot : Node) (fuel : nat) (b : Node)
    (path : list Node) (armatures : gmap Node (list Node)) (bones : list Node) :
  armatures !! skelroot = Some bones ->
  Notions.complete sc skelroot bones ->
  Spec.parent_chain sc skelroot b path -> (length path <= fuel)%nat ->
  exists armatures' bones',
    mark_skin_bone sc fuel skelroot (Some b) armatures = Some (Py.Ok armatures')
    /\ armatures' !! skelroot = Some bones'
    /\ Notions.complete sc skelroot bones'
    /\ b ∈ bones'
    /\ (forall n, n ∈ bones -> n ∈ bones')
    /\ (NoDup bones -> NoDup bones').
Proof.
  intros Hroot Hcomp Hchain Hfuel. unfold mark_skin_bone. rewrite Hroot.
  set (armatures1 := if negb (bool_decide (b ∈ bones))
                     then <[skelroot := bones ++ [b]]> armatures else armatures).
  set (bones1 := if negb (bool_decide (b ∈ bones)) then bones ++ [b] else bones).
  assert (Hroot1 : armatures1 !! skelroot = Some bones1).
  { subst armatures1 bones1. destruct (negb _); [apply lookup_insert_eq | assumption]. }
  assert (Hb1 : b ∈ bones1).
  { subst bones1. destruct (decide (b ∈ bones)) as [H | H].
    - now rewrite (bool_decide_eq_true_2 _ H).
    - rewrite (bool_decide_eq_false_2 _ H). simpl. apply elem_of_app. right. left. }
  assert (Hsub : forall n, n ∈ bones1 -> n ∈ bones \/ n = b).
  { subst bones1. intros n. destruct (negb _); [| now left].
    intros [? | ->%list_elem_of_singleton]%elem_of_app; auto. }
  assert (Hsup : forall n, n ∈ bones -> n ∈ bones1).
  { subst bones1. intros n Hn. destruct (negb _); [| assumption].
    apply elem_of_app. now left. }
  assert (Hnd1 : NoDup bones -> NoDup bones1).
  { subst bones1. intros Hnd. destruct (decide (b ∈ bones)) as [H | H].
    - now rewrite (bool_decide_eq_true_2 _ H).
    - rewrite (bool_decide_eq_false_2 _ H). simpl. apply NoDup_app.
      split; [assumption|]. split; [| apply NoDup_singleton].
      intros x Hx ->%list_elem_of_singleton. contradiction. }
  clearbody armatures1 bones1.
  destruct (complete_bone_tree_chain sc skelroot b path Hchain fuel armatures1 bones1
              Hfuel Hroot1 Hb1) as [a' [b' [E [Hr [Hmem _]]]]].
  destruct (complete_bone_tree_appends skelroot b path Hchain fuel _ _ bones1 Hroot1 E)
    as [added [Hr' Hnd]].
  exists a', b'. split; [exact E|]. split; [exact Hr|].
  destruct (parent_chain_parent skelroot b path Hchain) as [Hbp Hpar].
  split; [| split; [| split]].
  - intros n Hn. apply Hmem in Hn.
    assert (Hn' : n ∈ bones \/ n ∈ path).
    { destruct Hn as [Hn | Hn]; [| now right].
      destruct (Hsub n Hn) as [? | ->]; [now left | now right]. }
    destruct Hn' as [Hn' | Hn'].
    + destruct (Hcomp n Hn') as [p [Ep [Hs | Hp]]]; exists p; split; auto.
      right. apply Hmem. left. now apply Hsup.
    + destruct (Hpar n Hn') as [p [Ep [Hs | Hp]]]; exists p; split; auto.
      right. apply Hmem. now right.
  - apply Hmem. now left.
  - intros n Hn. apply Hmem. left. now apply Hsup.
  - intros Hnd0. rewrite Hr in Hr'. injection Hr' as ->. auto.
Qed.

(** The loop over the bones of a skin keeps the bone tree complete: when
    the parent references lead from every skin bone up to the armature
    root, the loop returns, every skin bone is listed, the parent of
    every listed bone is the root or listed, nothing is removed and no
    duplicate is added. *)
Theorem mark_skin_bones_complete (skelroot : Node) (fuel : nat)
    (skin_bones : list (option Node)) (armatures : gmap Node (list Node))
    (bones : list Node) :
  armatures !! skelroot = Some bones ->
  Notions.complete sc skelroot bones ->
  (forall b, Some b ∈ skin_bones ->
     exists path, Spec.parent_chain sc skelroot b path /\ (length path <= fuel)%nat) ->
  exists armatures' bones',
    mark_skin_bones sc fuel skelroot skin_bones armatures = Some (Py.Ok armatures')
    /\ armatures' !! skelroot = Some bones'
    /\ Notions.complete sc skelroot bones'
    /\ (forall b, Some b ∈ skin_bones -> b ∈ bones')
    /\ (forall n, n ∈ bones -> n ∈ bones')
    /\ (NoDup bones -> NoDup bones').
Proof.
  unfold mark_skin_bones. revert armatures bones.
  induction skin_bones as [|boneBlock skin_bones IH];
    intros armatures bones Hroot Hcomp Hchains.
  - exists armatures, bones. repeat split; auto. intros b Hb. inversion Hb.
  - simpl. destruct boneBlock as [b|].
    + destruct (Hchains b (list_elem_of_here _ _)) as [path [Hchain Hfuel]].
      destruct (mark_skin_bone_complete skelroot fuel b path armatures bones
                  Hroot Hcomp Hchain Hfuel)
        as [a1 [b1 [E [Hr [Hc [Hb [Hsup Hnd]]]]]]].
      rewrite E.
      destruct (IH a1 b1 Hr Hc) as [a' [b' [E' [Hr' [Hc' [Hall [Hsup' Hnd']]]]]]].
      { intros b0 Hb0. apply Hchains. now right. }
      exists a', b'. split; [exact E'|]. split; [exact Hr'|]. split; [exact Hc'|].
      split; [| split]; auto.
      intros b0 [[= ->] | Hb0]%elem_of_cons; auto.
    + destruct (IH armatures bones Hroot Hcomp) as [a' [b' [E' [Hr' [Hc' [Hall [Hsup' Hnd']]]]]]].
      { intros b0 Hb0. apply Hchains. now right. }
      exists a', b'. split; [exact E'|]. split; [exact Hr'|]. split; [exact Hc'|].
      split; [| split]; auto.
      intros b0 [[=] | Hb0]%elem_of_cons; auto.
Qed.

Lemma closest_from_nearest (armatures : gmap Node (list Node)) (skelroot n : Node)
    (l : list Node) :
  Notions.ancestry sc n l ->
  forall fuel, (length l < fuel)%nat ->
  exists r, closest_from sc armatures fuel (parent sc n) skelroot = Some r
    /\ match r with
       | Some b =>
           exists pre post, l = pre ++ b :: post
             /\ is_bone armatures (Some b) = true /\ b <> skelroot
             /\ forall x, x ∈ pre -> x <> skelroot /\ is_bone armatures (Some x) = false
       | None =>
           (exists pre post, l = pre ++ skelroot :: post
              /\ forall x, x ∈ pre -> is_bone armatures (Some x) = false)
           \/ (forall x, x ∈ l -> x <> skelroot /\ is_bone armatures (Some x) = false)
       end.
Proof.
  induction 1 as [n Hp | n p l Hp Hanc IH]; intros fuel Hfuel;
    (destruct fuel as [|fuel]; [simpl in Hfuel; lia|]); cbn [closest_from]; rewrite Hp.
  - exists None. split; [reflexivity|]. right. intros x Hx. inversion Hx.
  - destruct (decide (p = skelroot)) as [-> | Hne].
    + rewrite bool_decide_eq_true_2 by reflexivity.
      exists None. split; [reflexivity|]. left. exists [], l. split; [reflexivity|].
      intros x Hx. inversion Hx.
    + rewrite (bool_decide_eq_false_2 _ Hne).
      destruct (is_bone armatures (Some p)) eqn:Hb.
      * exists (Some p). split; [reflexivity|]. exists [], l.
        repeat split; auto. inversion H. inversion H.
      * destruct (IH fuel) as [r [E Hr]]; [simpl in Hfuel; lia|].
        exists r. split; [exact E|]. destruct r as [b|].
        -- destruct Hr as [pre [post [-> [Hbb [Hbs Hpre]]]]].
           exists (p :: pre), post. repeat split; auto;
             apply elem_of_cons in H as [-> | H]; auto; now apply Hpre.
        -- destruct Hr as [[pre [post [-> Hpre]]] | Hall].
           ++ left. exists (p :: pre), post. split; [reflexivity|].
              intros x [-> | Hx]%elem_of_cons; auto.
           ++ right. intros x [-> | Hx]%elem_of_cons; auto.
Qed.

(** [get_closest_bone] walks up the parent references of a block: it
    returns the nearest proper ancestor that is marked as a bone,
    provided the armature root is not met before it; it returns [None]
    when the root comes first (also when the root itself is marked) or
    when no ancestor up to the top is marked. *)
Theorem get_closest_bone_nearest (armatures : gmap Node (list Node))
    (ni_block skelroot : Node) (l : list Node) (fuel : nat) :
  Notions.ancestry sc ni_block l ->
  (length l < fuel)%nat ->
  exists r, get_closest_bone sc armatures fuel ni_block skelroot = Some r
    /\ match r with
       | Some b =>
           exists pre post, l = pre ++ b :: post
             /\ is_bone armatures (Some b) = true /\ b <> skelroot
             /\ forall x, x ∈ pre -> x <> skelroot /\ is_bone armatures (Some x) = false
       | None =>
           (exists pre post, l = pre ++ skelroot :: post
              /\ forall x, x ∈ pre -> is_bone armatures (Some x) = false)
           \/ (forall x, x ∈ l -> x <> skelroot /\ is_bone armatures (Some x) = false)
       end.
Proof.
  intros Hanc Hfuel. unfold get_closest_bone.
  exact (closest_from_nearest armatures skelroot ni_block l Hanc fuel Hfuel).
Qed.

End BoneTreeMore.

Lemma complete_bone_tree_once_witness :
  let sc := Armature.MkScene
              (fun n => match n with
                        | 4%positive => Some 3%positive
                        | 3%positive => Some 2%positive
                        | 2%positive => Some 1%positive
                        | _ => None
                        end)
              (fun _ => []) (fun _ _ => Armature.IDENTITY44) in
  let marked : gmap Armature.Node (list Armature.Node) :=
    <[ 1%positive := [4%positive; 3%positive; 2%positive] ]>
      (<[ 1%positive := [4%positive; 3%positive] ]> {[ 1%positive := [4%positive] ]}) in
  Armature.complete_bone_tree sc 3 4%positive 1%positive marked = Some (Py.Ok marked)
  /\ exists added, marked !! 1%positive = Some ([4%positive] ++ added)
                   /\ (NoDup [4%positive] -> NoDup ([4%positive] ++ added)).
Proof.
  intros sc marked.
  apply (complete_bone_tree_once sc 4%positive 1%positive
           {[ 1%positive := [4%positive] ]} marked [4%positive]
           [4%positive; 3%positive; 2%positive] 3).
  - apply lookup_singleton_eq.
  - apply list_elem_of_here.
  - apply Spec.chain_up with (boneparent := 3%positive); [reflexivity | discriminate |].
    apply Spec.chain_up with (boneparent := 2%positive); [reflexivity | discriminate |].
    apply Spec.chain_top. reflexivity.
  - simpl. lia.
  - reflexivity.
Defined.

Lemma complete_bone_tree_fails_witness :
  let sc := Armature.MkScene
              (fun n => match n with
                        | 4%positive => Some 3%positive
                        | 3%positive => Some 2%positive
                        | _ => None
                        end)
              (fun _ => []) (fun _ _ => Armature.IDENTITY44) in
  Armature.complete_bone_tree sc 3 4%positive 1%positive {[ 1%positive := [4%positive] ]}
  = Some (Py.Raise Py.AttributeError).
Proof.
  intros sc.
  apply (complete_bone_tree_fails sc 4%positive 1%positive
           {[ 1%positive := [4%positive] ]} 3 [3%positive; 2%positive] [4%positive]).
  - apply Notions.ancestry_up; [reflexivity|].
    apply Notions.ancestry_up; [reflexivity|].
    apply Notions.ancestry_top. reflexivity.
  - intros H. apply elem_of_cons in H as [H | H]; [discriminate|].
    apply elem_of_cons in H as [H | H]; [discriminate | inversion H].
  - apply lookup_singleton_eq.
  - apply list_elem_of_here.
  - simpl. lia.
Defined.

Lemma mark_skin_bones_complete_witness :
  let sc := Armature.MkScene
              (fun n => match n with
                        | 4%positive => Some 3%positive
                        | 3%positive => Some 2%positive
                        | 2%positive => Some 1%positive
                        | _ => None
                        end)
              (fun _ => []) (fun _ _ => Armature.IDENTITY44) in
  exists armatures' bones',
    Skeleton.mark_skin_bones sc 3 1%positive [Some 4%positive; None; Some 2%positive]
      {[ 1%positive := [] ]} = Some (Py.Ok armatures')
    /\ armatures' !! 1%positive = Some bones'
    /\ Notions.complete sc 1%positive bones'
    /\ (forall b, Some b ∈ [Some 4%positive; None; Some 2%positive] -> b ∈ bones')
    /\ (forall n, n ∈ @nil Armature.Node -> n ∈ bones')
    /\ (NoDup (@nil Armature.Node) -> NoDup bones').
Proof.
  intros sc.
  apply (mark_skin_bones_complete sc 1%positive 3
           [Some 4%positive; None; Some 2%positive] {[ 1%positive := [] ]} []).
  - apply lookup_singleton_eq.
  - intros b Hb. inversion Hb.
  - intros b Hb. apply elem_of_cons in Hb as [[= ->] | Hb].
    { exists [4%positive; 3%positive; 2%positive]. split; [| simpl; lia].
      apply Spec.chain_up with (boneparent := 3%positive); [reflexivity | discriminate |].
      apply Spec.chain_up with (boneparent := 2%positive); [reflexivity | discriminate |].
      apply Spec.chain_top. reflexivity. }
    apply elem_of_cons in Hb as [[=] | Hb].
    apply elem_of_cons in Hb as [[= ->] | Hb]; [| inversion Hb].
    exists [2%positive]. split; [| simpl; lia]. apply Spec.chain_top. reflexivity.
Defined.

Lemma get_closest_bone_nearest_witness :
  let sc := Armature.MkScene
              (fun n => match n with
                        | 4%positive => Some 3%positive
                        | 3%positive => Some 2%positive
                        | 2%positive => Some 1%positive
                        | _ => None
                        end)
              (fun _ => []) (fun _ _ => Armature.IDENTITY44) in
  let armatures : gmap Armature.Node (list Armature.Node) := {[ 1%positive := [2%positive] ]} in
  let l := [3%positive; 2%positive; 1%positive] in
  exists r, Skeleton.get_closest_bone sc armatures 4 4%positive 1%positive = Some r
    /\ match r with
       | Some b =>
           exists pre post, l = pre ++ b :: post
             /\ Armature.is_bone armatures (Some b) = true /\ b <> 1%positive
             /\ forall x, x ∈ pre ->
                  x <> 1%positive /\ Armature.is_bone armatures (Some x) = false
       | None =>
           (exists pre post, l = pre ++ 1%positive :: post
              /\ forall x, x ∈ pre -> Armature.is_bone armatures (Some x) = false)
           \/ (forall x, x ∈ l ->
                 x <> 1%positive /\ Armature.is_bone armatures (Some x) = false)
       end.
Proof.
  intros sc armatures l.
  apply (get_closest_bone_nearest sc armatures 4%positive 1%positive l 4).
  - apply Notions.ancestry_up; [reflexivity|].
    apply Notions.ancestry_up; [reflexivity|].
    apply Notions.ancestry_up; [reflexivity|].
    apply Notions.ancestry_top. reflexivity.
  - simpl. lia.
Defined.

(** ** The frame rate, further *)

Section FrameRateMore.

Import Animation.

(** A time on the grid of [1/c] seconds whose product with [c'] is whole
    lies on the grid of [1/g] seconds, for the pairs of rates the scan
    compares. *)
Lemma aligned_coarser (c c' g : Z) (t : Q) :
  ((c = 20 /\ c' = 30 /\ g = 10) \/ (c = 35 /\ (c' = 30 \/ c' = 20 \/ c' = 25) /\ g = 5))%Z ->
  Spec.aligned c t -> key_diff c' t == 0 -> Spec.aligned g t.
Proof.
  intros Hc [k [Hk E]] H. apply key_diff_zero in H as [n En].
  assert (Ec : inject_Z n * inject_Z c == inject_Z k * inject_Z c')
    by (rewrite <- En, <- E; ring).
  rewrite <- !inject_Z_mult in Ec. apply (proj1 (inject_Z_injective _ _)) in Ec.
  assert (exists m, (0 <= m)%Z /\ (k * g = c * m)%Z) as [m [Hm Ek]].
  { destruct Hc as [[-> [-> ->]] | [-> [[-> | [-> | ->]] ->]]].
    - exists (n - k)%Z. lia.
    - exists (k - n)%Z. lia.
    - exists (2 * n - k)%Z. lia.
    - exists (3 * n - 2 * k)%Z. lia. }
  exists m. split; [assumption|].
  assert (Hc0 : ~ inject_Z c == 0).
  { change 0 with (inject_Z 0). rewrite inject_Z_injective. lia. }
  apply (f_equal inject_Z) in Ek. rewrite !inject_Z_mult in Ek.
  apply (Qmult_inj_r _ _ (inject_Z c) Hc0).
  rewrite <- Qmult_assoc, (Qmult_comm (inject_Z g)), Qmult_assoc, E, Ek. ring.
Qed.

Lemma rounding_diff_off_grid (c c' g : Z) (l : list Q) :
  ((c = 20 /\ c' = 30 /\ g = 10) \/ (c = 35 /\ (c' = 30 \/ c' = 20 \/ c' = 25) /\ g = 5))%Z ->
  Forall (Spec.aligned c) l -> Exists (fun t => ~ Spec.aligned g t) l ->
  0 < rounding_diff c' l.
Proof.
  intros Hc Hall Hex. apply rounding_diff_pos.
  induction Hex as [t l N | t l _ IH]; inversion Hall; subst; [left | right; auto].
  intros H. apply N. now apply (aligned_coarser c c' g).
Qed.

Lemma rounding_diff_on_grid (c : Z) (l : list Q) :
  Forall (Spec.aligned c) l -> rounding_diff c l == 0.
Proof.
  intros H. apply rounding_diff_zero. eapply Forall_impl; [exact H|].
  intros t [k [Hk E]]. now apply (key_diff_whole _ _ k).
Qed.

(** The scan recognises the other rates too: key times that are whole
    numbers of 1/30 s give 30; whole numbers of 1/20 s give 20, unless
    all of them are whole numbers of 1/10 s; whole numbers of 1/35 s give
    35, unless all of them are whole numbers of 1/5 s. *)
Theorem get_frames_per_second_recognised (roots : list (list Block)) :
  key_times roots <> [] ->
  (Forall (Spec.aligned 30) (key_times roots) -> get_frames_per_second roots = 30%Z)
  /\ (Forall (Spec.aligned 20) (key_times roots) ->
      Exists (fun t => ~ Spec.aligned 10 t) (key_times roots) ->
      get_frames_per_second roots = 20%Z)
  /\ (Forall (Spec.aligned 35) (key_times roots) ->
      Exists (fun t => ~ Spec.aligned 5 t) (key_times roots) ->
      get_frames_per_second roots = 35%Z).
Proof.
  unfold get_frames_per_second. generalize (key_times roots). intros l Hl.
  pose proof (fps_first_minimum l Hl) as Hmin. cbv beta zeta in Hmin.
  pose proof (rounding_diff_nonneg 30 l). pose proof (rounding_diff_nonneg 20 l).
  pose proof (rounding_diff_nonneg 25 l). pose proof (rounding_diff_nonneg 35 l).
  split; [| split].
  - intros H30. pose proof (rounding_diff_on_grid 30 l H30).
    destruct Hmin as [[-> _] | [[_ [? _]] | [[_ [? _]] | [_ [? _]]]]]; [reflexivity | lra ..].
  - intros H20 N. pose proof (rounding_diff_on_grid 20 l H20).
    pose proof (rounding_diff_off_grid 20 30 10 l ltac:(lia) H20 N).
    destruct Hmin as [[_ [? _]] | [[-> _] | [[_ [_ [? _]]] | [_ [_ [? _]]]]]];
      [lra | reflexivity | lra | lra].
  - intros H35 N. pose proof (rounding_diff_on_grid 35 l H35).
    pose proof (rounding_diff_off_grid 35 30 5 l ltac:(lia) H35 N).
    pose proof (rounding_diff_off_grid 35 20 5 l ltac:(lia) H35 N).
    pose proof (rounding_diff_off_grid 35 25 5 l ltac:(lia) H35 N).
    destruct Hmin as [[_ [_ [_ ?]]] | [[_ [_ [_ ?]]] | [[_ [_ [_ ?]]] | [-> _]]]];
      [lra | lra | lra | reflexivity].
Qed.

End FrameRateMore.

Lemma get_frames_per_second_recognised_witness :
  let roots := [[Animation.UVDataBlock [[1#20; 1#10]]]] in
  Animation.key_times roots <> []
  /\ Forall (Spec.aligned 20) (Animation.key_times roots)
  /\ Exists (fun t => ~ Spec.aligned 10 t) (Animation.key_times roots)
  /\ Animation.get_frames_per_second roots = 20%Z.
Proof.
  intros roots.
  assert (Hl : Animation.key_times roots <> []) by discriminate.
  assert (H20 : Forall (Spec.aligned 20) (Animation.key_times roots)).
  { repeat constructor; [exists 1%Z | exists 2%Z]; split; (lia || reflexivity). }
  assert (N : Exists (fun t => ~ Spec.aligned 10 t) (Animation.key_times roots)).
  { left. intros [k [Hk E]]. unfold Qeq in E. simpl in E. lia. }
  split; [exact Hl | split; [exact H20 | split; [exact N |]]].
  destruct (get_frames_per_second_recognised roots Hl) as [_ [H _]].
  exact (H H20 N).
Defined.

(** ** The correction matrix, further *)

Section CorrectionMore.

Import Armature.

Lemma correction_of_sums_table (x y z : Q) :
  exists m, correction_of_sums x y z = Py.Ok m
            /\ (m = identity33 \/ m ∈ BONE_CORRECTION_MATRICES).
Proof.
  unfold correction_of_sums. cbn [map].
  destruct (index_max (Py.int (x * 200))
              [Py.int (y * 200); Py.int (z * 200); Py.int (- x * 200);
               Py.int (- y * 200); Py.int (- z * 200)]) as [k [Ek [Hk _]]].
  rewrite Ek.
  destruct k as [|[|[|[|[|[|k]]]]]]; [| | | | | | discriminate Hk];
    (destruct (Py.ltb _ (1#4));
     [eexists; split; [reflexivity | right; unfold BONE_CORRECTION_MATRICES;
                                      repeat first [apply list_elem_of_here
                                                   | apply list_elem_of_further]]
     | eexists; split; [reflexivity | left; reflexivity]]).
Qed.

Lemma correction_matrices_rotations (m : Matrix) :
  m = identity33 \/ m ∈ BONE_CORRECTION_MATRICES -> Notions.rotation m.
Proof.
  unfold BONE_CORRECTION_MATRICES.
  intros [-> | H]; [vm_compute; repeat split; congruence|].
  repeat (apply elem_of_cons in H as [-> | H];
          [vm_compute; repeat split; congruence|]).
  inversion H.
Qed.

(** On finite matrix entries, which are all the model has,
    [find_correction_matrix] returns, and what it returns is the identity
    or one of the six correction matrices; each of them is a rotation:
    orthogonal, with determinant 1. *)
Theorem find_correction_matrix_rotation (sc : Scene) (props : Props)
    (armatures : gmap Node (list Node)) (n_block : option Node) (n_armature : Node) :
  exists m, find_correction_matrix sc props armatures n_block n_armature = Py.Ok m
            /\ (m = identity33 \/ m ∈ BONE_CORRECTION_MATRICES)
            /\ Notions.rotation m.
Proof.
  assert (H : exists m, find_correction_matrix sc props armatures n_block n_armature = Py.Ok m
                        /\ (m = identity33 \/ m ∈ BONE_CORRECTION_MATRICES)).
  { unfold find_correction_matrix. destruct n_block as [n|].
    - destruct (_ && _).
      + destruct (offset_sums sc armatures n n_armature) as [[x y] z].
        apply correction_of_sums_table.
      + eexists. split; [reflexivity | now left].
    - eexists. split; [reflexivity | now left]. }
  destruct H as [m [E Hm]]. exists m. split; [exact E|]. split; [exact Hm|].
  now apply correction_matrices_rotations.
Qed.

Lemma ratio_lt (r d : Q) : 0 < d -> Py.ltb (r / d) (1#4) = true -> 4 * r < d.
Proof.
  intros Hd H. apply ltb_lt in H.
  assert (E : r == r / d * d) by (field; lra).
  rewrite E. nra.
Qed.

(** What the correction is for: with a component of absolute value
    1/200 or more, the matrix [find_correction_matrix] chooses is the
    identity, or it turns the accumulated offset towards +Y: the second
    component of the corrected offset is the greatest absolute component
    of the offset, and more than four times the two others together. *)
Theorem correction_of_sums_towards_y (x y z : Q) :
  (1#200) <= Qabs x \/ (1#200) <= Qabs y \/ (1#200) <= Qabs z ->
  exists m, correction_of_sums x y z = Py.Ok m
    /\ (m = identity33
        \/ let w := mat_vec m (Vec x y z) in
           Qabs x <= vy w /\ Qabs y <= vy w /\ Qabs z <= vy w
           /\ 4 * (Qabs (vx w) + Qabs (vz w)) < vy w).
Proof.
  intros Hbig. exists (Spec.select_correction x y z).
  split; [now apply correction_of_sums_select|].
  unfold Spec.select_correction.
  destruct (argmax_greatest (x * 200) (y * 200) (z * 200)
              (- x * 200) (- y * 200) (- z * 200)) as [vj [Ej Hj]].
  remember (Spec.argmax _) as j eqn:Heqj. clear Heqj.
  destruct j as [|[|[|[|[|[|j]]]]]]; [| | | | | | discriminate Ej];
    injection Ej as <-;
    (destruct (Py.ltb _ (1#4)) eqn:E; [| now left]);
    right; cbn [BONE_CORRECTION_MATRICES lookup list_lookup default];
    apply ratio_lt in E;
    cbv [mat_vec dot id vx vy vz row0 row1 row2];
    try match goal with
        | |- _ /\ _ /\ _ /\ 4 * (Qabs ?a + Qabs ?c) < _ =>
            destruct (abs_cases a) as [[Sa Aa] | [Sa Aa]];
            destruct (abs_cases c) as [[Sc Ac] | [Sc Ac]]
        end;
    destruct (abs_cases x) as [[Sx Ax] | [Sx Ax]];
    destruct (abs_cases y) as [[Sy Ay] | [Sy Ay]];
    destruct (abs_cases z) as [[Sz Az] | [Sz Az]];
    destruct Hbig as [Hb | [Hb | Hb]]; repeat split; lra.
Qed.

End CorrectionMore.

Lemma correction_of_sums_towards_y_witness :
  exists m, Armature.correction_of_sums 0 0 (-3) = Py.Ok m
    /\ (m = identity33
        \/ let w := mat_vec m (Vec 0 0 (-3)) in
           Qabs 0 <= vy w /\ Qabs 0 <= vy w /\ Qabs (-3) <= vy w
           /\ 4 * (Qabs (vx w) + Qabs (vz w)) < vy w).
Proof.
  apply (correction_of_sums_towards_y 0 0 (-3)).
  right. right. unfold Qle. simpl. lia.
Defined.

(** ** The bones of an armature *)

Section ImportBoneMore.

Import Armature.

Variable sc : Scene.
Variable props : Props.
Variable armatures : gmap Node (list Node).
Variable normalize : Vector -> Vector.
Variable invertible : Matrix44 -> bool.

Lemma nub_tail_total (edit_bones : gmap Node EditBone) (n_block : Node) (h t : Vector) :
  Notions.parent_bone_known sc props armatures edit_bones n_block ->
  exists v, nub_tail sc props armatures normalize edit_bones n_block h t = Py.Ok v.
Proof.
  intros H. unfold nub_tail. destruct h as [hx hy hz], t as [tx ty tz].
  destruct ((import_realign_bones props =? 2)%Z
            || negb (is_bone armatures (parent sc n_block))) eqn:E; [now eexists|].
  apply orb_false_iff in E as [E2 Eb]. apply negb_false_iff in Eb.
  destruct H as [H | [H | [p [Ep [pb Hpb]]]]].
  - apply Z.eqb_neq in E2. contradiction.
  - congruence.
  - rewrite Ep. cbn [mbind option_bind]. rewrite Hpb.
    destruct (no_offset _ _ _ _); eexists; reflexivity.
Qed.

Lemma bone_head_tail_total (edit_bones : gmap Node EditBone) (n_block n_armature : Node) :
  Notions.parent_bone_known sc props armatures edit_bones n_block ->
  (is_bone armatures (Some n_block) = false
   /\ bone_head_tail sc props armatures normalize edit_bones n_block n_armature = Py.Ok None)
  \/ (is_bone armatures (Some n_block) = true
      /\ exists b_bone,
          bone_head_tail sc props armatures normalize edit_bones n_block n_armature
          = Py.Ok (Some b_bone)
          /\ head b_bone = Spec.head_position sc n_block n_armature).
Proof.
  intros H. unfold bone_head_tail.
  destruct (is_bone armatures (Some n_block)) eqn:Eb; cbn [negb]; [right | left; auto].
  split; [reflexivity|].
  destruct (tail_of_children_spec sc props armatures n_block n_armature)
    as [t [zl [E _]]].
  rewrite E. cbn [Py.bind]. destruct zl.
  - destruct (nub_tail_total edit_bones n_block
                (Vec (c3 (m0 (import_matrix sc n_block (Some n_armature))))
                     (c3 (m1 (import_matrix sc n_block (Some n_armature))))
                     (c3 (m2 (import_matrix sc n_block (Some n_armature))))) t H)
      as [v Ev].
    rewrite Ev. cbn [Py.bind]. eexists. split; reflexivity.
  - cbn [Py.bind]. eexists. split; reflexivity.
Qed.

Lemma import_bone_children (fuel : nat) (n n_armature : Node)
    (IH : forall c eb, Notions.shallow sc armatures fuel c ->
            Notions.parent_bone_known sc props armatures eb c ->
            exists eb', import_bone sc props armatures normalize invertible
                          fuel c n_armature eb
                        = Some (Py.Ok eb')
                        /\ (forall k, is_Some (eb !! k) -> is_Some (eb' !! k))) :
  forall (cs : list Node) (acc : gmap Node EditBone),
    Forall (Notions.shallow sc armatures fuel) cs ->
    (forall c, c ∈ cs -> parent sc c = Some n) ->
    is_Some (acc !! n) ->
    exists eb',
      fold_left (fun acc niBone =>
          match acc with
          | Some (Py.Ok edit_bones) =>
              import_bone sc props armatures normalize invertible
                fuel niBone n_armature edit_bones
          | _ => acc
          end) cs (Some (Py.Ok acc)) = Some (Py.Ok eb')
      /\ (forall k, is_Some (acc !! k) -> is_Some (eb' !! k)).
Proof.
  induction cs as [|c cs IHcs]; intros acc Hsh Hpar Hn.
  - exists acc. split; [reflexivity | auto].
  - inversion Hsh as [|? ? Hc Hcs]; subst. cbn [fold_left].
    destruct (IH c acc Hc) as [eb1 [E1 Hsub1]].
    { right. right. exists n. split; [apply Hpar; left | exact Hn]. }
    rewrite E1.
    destruct (IHcs eb1 Hcs) as [eb' [E' Hsub']].
    { intros c' Hc'. apply Hpar. now right. }
    { now apply Hsub1. }
    exists eb'. split; [exact E' | auto].
Qed.


End ImportBoneMore.


(** ** How the import of keyframe data ends *)

Section KeyframeFailures.

Import Animation ArmatureAnimation.

Variable host : Host.
Variable fps : FrameRates.
Variable b : BoneBind.

Lemma for_each_returns {A S} (body : A -> S -> Py.result S) (xs : list A) :
  (forall x st, exists st', body x st = Py.Ok st') ->
  forall st, exists st', for_each xs body st = Py.Ok st'.
Proof.
  intros H st.
  destruct (for_each_inv (fun _ => True) body xs) with (st := st) as [st' [E _]];
    [| exact I | now exists st'].
  intros x s _. destruct (H x s) as [s' E]. now exists s'.
Qed.

Lemma bind_relative_division (trans : Vector) :
  (~ niBone_bind_scale b == 0 -> exists v, bind_relative b trans = Py.Ok v)
  /\ (niBone_bind_scale b == 0 -> bind_relative b trans = Py.Raise Py.ZeroDivisionError).
Proof.
  unfold bind_relative. split; intros H.
  - rewrite py_div_ok by assumption. now eexists.
  - now rewrite py_div_zero by assumption.
Qed.

Lemma final_location_division (rot : Matrix) (sizeVal : Q) (locVal : Vector) :
  (~ extra_matrix_scale b == 0 -> exists v, final_location b rot sizeVal locVal = Py.Ok v)
  /\ (extra_matrix_scale b == 0 ->
      final_location b rot sizeVal locVal = Py.Raise Py.ZeroDivisionError).
Proof.
  unfold final_location. split; intros H.
  - rewrite py_div_ok by assumption. now eexists.
  - now rewrite py_div_zero by assumption.
Qed.

Lemma translation_key_division (key : Key Vector) (st : State) :
  (~ niBone_bind_scale b == 0 -> ~ extra_matrix_scale b == 0 ->
   exists st', translation_key host fps b key st = Py.Ok st')
  /\ (niBone_bind_scale b == 0 \/ extra_matrix_scale b == 0 ->
      translation_key host fps b key st = Py.Raise Py.ZeroDivisionError).
Proof.
  unfold translation_key. split.
  - intros Hb He. destruct (proj1 (bind_relative_division (value key)) Hb) as [v ->].
    cbn [Py.bind].
    destruct (proj1 (final_location_division
                       (rotation_at host st
                          (frame_of_time (armature_fps fps) (time key)))
                       (scale_at host st (frame_of_time (armature_fps fps) (time key)))
                       v) He) as [loc ->].
    cbn [Py.bind]. now eexists.
  - intros H. destruct (Qeq_dec (niBone_bind_scale b) 0) as [Hb | Hb].
    + now rewrite (proj2 (bind_relative_division (value key)) Hb).
    + destruct H as [H | He]; [contradiction|].
      destruct (proj1 (bind_relative_division (value key)) Hb) as [v ->].
      cbn [Py.bind]. now rewrite (proj2 (final_location_division _ _ _) He).
Qed.

(** How the import of a bone's keyframe data ends, case by case.  With
    a scale key it raises: [ZeroDivisionError] on a bind scale of zero,
    else [TypeError].  Without scale keys but with an Euler key on every
    axis it raises [AttributeError].  Else the rotation keys are keyed
    without failure, and the translation keys raise
    [ZeroDivisionError] when the bind scale or the scale of the extra
    matrix is zero; in the remaining case the import returns. *)
Theorem import_keyframe_data_failures (kfd : NiKeyframeData) (st : State) :
  let r := import_bone_animation host fps b (KeyframeData kfd) st in
  let euler_keys :=
    zip3 (xyz_rotations_0 kfd) (xyz_rotations_1 kfd) (xyz_rotations_2 kfd) in
  (scales kfd <> [] -> niBone_bind_scale b == 0 -> r = Py.Raise Py.ZeroDivisionError)
  /\ (scales kfd <> [] -> ~ niBone_bind_scale b == 0 -> r = Py.Raise Py.TypeError)
  /\ (scales kfd = [] -> rotation_type kfd = 4%Z -> euler_keys <> [] ->
      r = Py.Raise Py.AttributeError)
  /\ (scales kfd = [] -> (rotation_type kfd = 4%Z -> euler_keys = []) ->
      translations kfd <> [] ->
      niBone_bind_scale b == 0 \/ extra_matrix_scale b == 0 ->
      r = Py.Raise Py.ZeroDivisionError)
  /\ (scales kfd = [] -> (rotation_type kfd = 4%Z -> euler_keys = []) ->
      translations kfd = []
      \/ (~ niBone_bind_scale b == 0 /\ ~ extra_matrix_scale b == 0) ->
      exists st', r = Py.Ok st').
Proof.
  intros r euler_keys. subst r euler_keys.
  unfold import_bone_animation, import_keyframe_data.
  set (st0 := MkState (posebone st) (action st) ∅ ∅). clearbody st0.
  assert (Hrot : (rotation_type kfd = 4%Z ->
                  zip3 (xyz_rotations_0 kfd) (xyz_rotations_1 kfd) (xyz_rotations_2 kfd)
                  = []) ->
                 exists st2, rotation_keys fps b kfd st0 = Py.Ok st2).
  { intros Hz. unfold rotation_keys.
    destruct (Z.eqb_spec (rotation_type kfd) 4) as [E4 | N4].
    - rewrite (Hz E4). now exists st0.
    - apply for_each_returns. intros key s. unfold quaternion_key. now eexists. }
  split; [| split; [| split; [| split]]].
  - intros Hs Hb. destruct (scales kfd) as [|key keys]; [congruence|].
    rewrite (for_each_raises (scale_key fps b) key keys st0 Py.ZeroDivisionError);
      [reflexivity | now apply scale_key_raises].
  - intros Hs Hb. destruct (scales kfd) as [|key keys]; [congruence|].
    rewrite (for_each_raises (scale_key fps b) key keys st0 Py.TypeError);
      [reflexivity | now apply scale_key_raises].
  - intros Hs E4 Hz. rewrite Hs. cbn [for_each fold_left Py.bind].
    unfold rotation_keys. rewrite E4. cbn [Z.eqb Pos.eqb].
    destruct (zip3 _ _ _) as [|xyz keys]; [congruence|].
    now rewrite (for_each_raises euler_key xyz keys st0 Py.AttributeError).
  - intros Hs Hz Ht H0. rewrite Hs. cbn [for_each fold_left Py.bind].
    destruct (Hrot Hz) as [st2 ->]. cbn [Py.bind].
    destruct (translations kfd) as [|key keys]; [congruence|].
    apply for_each_raises. now apply translation_key_division.
  - intros Hs Hz Ht. rewrite Hs. cbn [for_each fold_left Py.bind].
    destruct (Hrot Hz) as [st2 ->]. cbn [Py.bind].
    destruct Ht as [-> | [Hb He]]; [now exists st2|].
    apply for_each_returns. intros key s. now apply translation_key_division.
Qed.

End KeyframeFailures.

Lemma import_keyframe_data_failures_witness :
  let host := ArmatureAnimation.MkHost (fun _ => []) (fun _ => quat_identity) in
  let fps := ArmatureAnimation.MkFrameRates 30 30 30 in
  let flat := ArmatureAnimation.MkBoneBind 0 identity33 quat_identity (Vec 0 0 0)
                1 identity33 quat_identity quat_identity (Vec 0 0 0) in
  let kfd := Animation.MkKeyframeData [Animation.MkKey 0 (Vec 1 2 3)] [] 1 [] [] []
               [Animation.MkKey 0 (Quat 0 1 0 0)] in
  let st := ArmatureAnimation.MkState
              (ArmatureAnimation.MkPoseBone (Vec 1 1 1) quat_identity (Vec 0 0 0) (Vec 0 0 0))
              [] ∅ ∅ in
  ArmatureAnimation.import_bone_animation host fps flat
    (ArmatureAnimation.KeyframeData kfd) st = Py.Raise Py.ZeroDivisionError.
Proof.
  intros host fps flat kfd st.
  apply (import_keyframe_data_failures host fps flat kfd st);
    [reflexivity | discriminate | discriminate | left; reflexivity].
Defined.
